(** * RssMonitor: the keyword-matching RSS monitor of [function_v2.py]

    A shallow embedding of [src/RssMonitor/function_v2.py] (and of the
    keyword test of its predecessor [function.py]) with the properties the
    specification states about it.

    Conventions of the embedding.
    - A Python [str] is a [string] of ASCII text: on the ASCII range
      Python's Unicode tables for [\w] and for [re.IGNORECASE] are the
      classification written out in [Module Re], which gives the characters
      above 127 neither a case nor a place in a word.
    - A Python computation that may raise returns a [py_result]; one that
      also talks to the outside world returns an [io]: the result and the
      list of external calls it made, in the order it made them.
    - The collaborators (S3, feedparser, the webhook, the worker pool's
      scheduler) are the fields of a [world]; every function that reaches
      one takes the world as an argument.
    - The first part takes the arrays of the configuration to hold strings
      and what a collaborator raises to be an [Exception]; [Module Dyn] has
      the same functions without either assumption, for the properties that
      depend on it: the payload of the POST and the ways a run can raise. *)

From Stdlib Require Import Ascii String.
From stdpp Require Import base option list strings pretty gmap.

Local Open Scope string_scope.
Local Open Scope list_scope.

(** ** Python values and outcomes *)

(** An exception object: its class and [str(e)]. *)
Inductive py_exn : Type :=
  PyExn (cls : string) (msg : string).

Definition py_str (e : py_exn) : string :=
  match e with PyExn _ msg => msg end.

Inductive py_result (A : Type) : Type :=
  | Ret (a : A)
  | Raise (e : py_exn).
Arguments Ret {A} a.
Arguments Raise {A} e.

(** The line feed, which Rocq's string literals cannot escape. *)
Definition LF : ascii := ascii_of_nat 10.
Definition nl : string := String LF "".

(** [sep.join(items)] on a list of [str]. *)
Fixpoint py_join (sep : string) (items : list string) : string :=
  match items with
  | [] => ""
  | [x] => x
  | x :: rest => x +:+ sep +:+ py_join sep rest
  end.

(** The values a field of the configuration document takes: the fragment of
    JSON with scalars and arrays of strings. *)
Inductive jval : Type :=
  | JNull
  | JBool (b : bool)
  | JInt (n : Z)
  | JStr (s : string)
  | JList (items : list string).

Definition py_type_name (v : jval) : string :=
  match v with
  | JNull => "NoneType"
  | JBool _ => "bool"
  | JInt _ => "int"
  | JStr _ => "str"
  | JList _ => "list"
  end.

(** [for x in v]: a list yields its items, a [str] its characters, anything
    else raises [TypeError]. *)
Definition py_iter (v : jval) : py_result (list string) :=
  match v with
  | JList items => Ret items
  | JStr s => Ret ((λ c, String c "") <$> list_ascii_of_string s)
  | _ => Raise (PyExn "TypeError"
                  ("'" +:+ py_type_name v +:+ "' object is not iterable"))
  end.

(** [len(v)]. *)
Definition py_len (v : jval) : py_result nat :=
  match v with
  | JList items => Ret (length items)
  | JStr s => Ret (String.length s)
  | _ => Raise (PyExn "TypeError"
                  ("object of type '" +:+ py_type_name v +:+ "' has no len()"))
  end.

(** ** The fragment of Python's [re] the monitor reaches *)

Module Re.

(** *** Characters *)

Definition in_range (lo hi : nat) (c : ascii) : bool :=
  (lo <=? nat_of_ascii c)%nat && (nat_of_ascii c <=? hi)%nat.

Definition is_upper (c : ascii) : bool := in_range 65 90 c.
Definition is_lower (c : ascii) : bool := in_range 97 122 c.
Definition is_digit (c : ascii) : bool := in_range 48 57 c.

(** [\w]: letters, digits and the underscore. *)
Definition is_word (c : ascii) : bool :=
  is_upper c || is_lower c || is_digit c || Ascii.eqb c "_".

Definition lower (c : ascii) : ascii :=
  if is_upper c then ascii_of_nat (nat_of_ascii c + 32) else c.

(** Two characters are equal under [re.IGNORECASE]. *)
Definition ci_eq (c d : ascii) : bool := Ascii.eqb (lower c) (lower d).

(** [\b] at index [i] of [s]: exactly one of the characters on either side
    of the position is a word character (outside the text none is). *)
Definition word_at (s : list ascii) (i : nat) : bool :=
  match s !! i with Some c => is_word c | None => false end.

Definition word_before (s : list ascii) (i : nat) : bool :=
  match i with 0 => false | S j => word_at s j end.

Definition boundary (s : list ascii) (i : nat) : bool :=
  xorb (word_before s i) (word_at s i).

(** *** Patterns *)

Inductive regex : Type :=
  | Eps
  | Lit (c : ascii)
  | Any
  | WordB
  | Seq (r1 r2 : regex)
  | Alt (r1 r2 : regex)
  | Star (r : regex)
  | Plus (r : regex)
  | Opt (r : regex)
  | Group (r : regex).

(** The item is an assertion ([AT] in [sre_parse]): it cannot be repeated. *)
Definition is_at (r : regex) : bool :=
  match r with WordB => true | _ => false end.

(** The item is already a repetition. *)
Definition is_repeat (r : regex) : bool :=
  match r with Star _ | Plus _ | Opt _ => true | _ => false end.

Fixpoint nullable (r : regex) : bool :=
  match r with
  | Eps | WordB | Star _ | Opt _ => true
  | Lit _ | Any => false
  | Seq r1 r2 => nullable r1 && nullable r2
  | Alt r1 r2 => nullable r1 || nullable r2
  | Plus r | Group r => nullable r
  end.

(** *** Matching

    [re.search] is only tested for truth, so what matters is whether some
    match exists, not which one the backtracking engine finds first.
    [ends r s i] lists the indices at which a match of [r] that starts at
    index [i] of [s] can end. *)

Fixpoint star_from (step : nat → list nat) (fuel i : nat) : list nat :=
  match fuel with
  | 0 => [i]
  | S fuel' =>
      i :: (step i ≫= λ j, if (i <? j)%nat then star_from step fuel' j else [])
  end.

Fixpoint ends (r : regex) (s : list ascii) (i : nat) : list nat :=
  match r with
  | Eps => [i]
  | Lit c =>
      match s !! i with
      | Some d => if ci_eq c d then [S i] else []
      | None => []
      end
  | Any =>
      match s !! i with
      | Some d => if Ascii.eqb d LF then [] else [S i]
      | None => []
      end
  | WordB => if boundary s i then [i] else []
  | Seq r1 r2 => ends r1 s i ≫= ends r2 s
  | Alt r1 r2 => ends r1 s i ++ ends r2 s i
  | Star r => star_from (ends r s) (length s) i
  | Plus r => ends r s i ≫= star_from (ends r s) (length s)
  | Opt r => i :: ends r s i
  | Group r => ends r s i
  end.

Definition matches_at (r : regex) (s : list ascii) (i : nat) : bool :=
  match ends r s i with [] => false | _ => true end.

(** [re.search] tries every start index, the end of the text included. *)
Definition search (r : regex) (s : list ascii) : bool :=
  existsb (matches_at r s) (seq 0 (S (length s))).

(** *** Parsing

    The fragment: literal characters, [.], [\b], alternation, capturing
    groups and the repetitions [*], [+], [?] (greedy or lazy). A pattern
    that uses anything else is [Beyond] the fragment. *)

Inductive parsed : Type :=
  | Compiled (r : regex)
  | Error (msg : string) (pos : nat)
  | Beyond.

Definition is_special (c : ascii) : bool :=
  existsb (Ascii.eqb c) (list_ascii_of_string ".^$*+?{}[]\|()").

Definition is_beyond_char (c : ascii) : bool :=
  existsb (Ascii.eqb c) (list_ascii_of_string "^${}[]").

(** Syntax outside the fragment anywhere in the pattern: sets, counted
    repetitions, anchors, group extensions, escapes other than [\b]. *)
Fixpoint beyond_syntax (s : list ascii) : bool :=
  match s with
  | [] => false
  | c :: s' =>
      if Ascii.eqb c "\" then
        match s' with
        | d :: s'' => if Ascii.eqb d "b" then beyond_syntax s'' else true
        | [] => true
        end
      else if Ascii.eqb c "(" then
        match s' with
        | d :: _ => if Ascii.eqb d "?" then true else beyond_syntax s'
        | [] => false
        end
      else is_beyond_char c || beyond_syntax s'
  end.

Fixpoint mk_seq (items : list regex) : regex :=
  match items with
  | [] => Eps
  | r :: rest => Seq r (mk_seq rest)
  end.

Fixpoint mk_alt (branches : list regex) : regex :=
  match branches with
  | [] => Eps
  | [r] => r
  | r :: rest => Alt r (mk_alt rest)
  end.

(** The alternation a level amounts to once it ends: [brs] are its finished
    branches and [its] the items of the branch being read, both most recent
    first. *)
Definition close (brs its : list regex) : regex :=
  mk_alt (rev (mk_seq (rev its) :: brs)).

Definition repeat_of (q : ascii) (r : regex) : regex :=
  if Ascii.eqb q "*" then Star r
  else if Ascii.eqb q "+" then Plus r
  else Opt r.

Definition is_repeat_char (c : ascii) : bool :=
  Ascii.eqb c "*" || Ascii.eqb c "+" || Ascii.eqb c "?".

(** One pass over the pattern, as [sre_parse] makes it. [stack] holds, for
    each group that is open, the enclosing level and the index of the
    group's parenthesis. *)
Fixpoint parse_loop (s : list ascii) (pos : nat) (brs its : list regex)
    (stack : list (list regex * list regex * nat)) : parsed :=
  match s with
  | [] =>
      match stack with
      | [] => Compiled (close brs its)
      | (_, _, p) :: _ => Error "missing ), unterminated subpattern" p
      end
  | c :: s' =>
      if Ascii.eqb c "(" then
        parse_loop s' (S pos) [] [] ((brs, its, pos) :: stack)
      else if Ascii.eqb c ")" then
        match stack with
        | [] => Error "unbalanced parenthesis" pos
        | (brs0, its0, _) :: stack' =>
            parse_loop s' (S pos) brs0 (Group (close brs its) :: its0) stack'
        end
      else if Ascii.eqb c "|" then
        parse_loop s' (S pos) (mk_seq (rev its) :: brs) [] stack
      else if is_repeat_char c then
        match its with
        | [] => Error "nothing to repeat" pos
        | it :: its' =>
            if is_at it then Error "nothing to repeat" pos
            else if is_repeat it then Error "multiple repeat" pos
            else if nullable it then Beyond
            else
              match s' with
              | d :: s'' =>
                  if Ascii.eqb d "+" then Beyond
                  else if Ascii.eqb d "?" then
                    parse_loop s'' (S (S pos)) brs (repeat_of c it :: its') stack
                  else parse_loop s' (S pos) brs (repeat_of c it :: its') stack
              | [] => parse_loop s' (S pos) brs (repeat_of c it :: its') stack
              end
        end
      else if Ascii.eqb c "\" then
        match s' with
        | d :: s'' =>
            if Ascii.eqb d "b" then
              parse_loop s'' (S (S pos)) brs (WordB :: its) stack
            else Beyond
        | [] => Beyond
        end
      else if Ascii.eqb c "." then
        parse_loop s' (S pos) brs (Any :: its) stack
      else if is_beyond_char c then Beyond
      else parse_loop s' (S pos) brs (Lit c :: its) stack
  end.

Definition parse (pattern : string) : parsed :=
  let s := list_ascii_of_string pattern in
  if beyond_syntax s then Beyond else parse_loop s 0 [] [] [].

(** [str(e)] of an [re.error]: the message, the position and, when the
    pattern has a line break, the line and column. *)
Definition count_lf (s : list ascii) : nat :=
  length (filter (λ c, c = LF) s).

(** [pos - pattern.rfind("\n", 0, pos)]: one more than the number of
    characters between the last line break before [pos] and [pos]. *)
Definition column (s : list ascii) (pos : nat) : nat :=
  S (foldl (λ n c, if Ascii.eqb c LF then 0 else S n) 0 (take pos s)).

Definition error (msg pattern : string) (pos : nat) : py_exn :=
  let s := list_ascii_of_string pattern in
  let at_pos := msg +:+ " at position " +:+ pretty pos in
  PyExn "re.error"
    (if bool_decide (LF ∈ s) then
       at_pos +:+ " (line " +:+ pretty (count_lf (take pos s) + 1)
              +:+ ", column " +:+ pretty (column s pos) +:+ ")"
     else at_pos).

End Re.

(** ** Data of the monitor *)

(** One item of a parsed feed: the three optional fields the monitor reads
    with [entry.get(key, "")]. *)
Record entry : Type := {
  e_title : option string;
  e_summary : option string;
  e_link : option string;
}.

(** What [feed.entries] holds: entries, or objects on which [entry.get]
    raises (a malformed structure from the parser). *)
Inductive feed_item : Type :=
  | Item (e : entry)
  | Broken (err : py_exn).

(** What [feedparser.parse(url)] does. *)
Inductive parse_outcome : Type :=
  | ParseRaises (err : py_exn)
  | Parsed (entries : list feed_item).

(** The dictionaries [process_feed] builds. *)
Record matched_entry : Type := {
  m_title : string;
  m_url : string;
  m_keywords : list string;
}.

Record feed_result : Type := {
  r_feed : string;
  r_matches : list matched_entry;
  r_error : option string;
}.

(** The webhook payload. *)
Record attachment : Type := {
  a_title : string;
  a_title_link : string;
  a_text : string;
}.

Record message : Type := {
  msg_text : string;
  msg_attachments : list attachment;
}.

(** What [requests.post] does. *)
Inductive post_outcome : Type :=
  | PostRaises (err : py_exn)
  | Response (status_code : Z) (text : string).

(** The summary and the value [lambda_handler] returns; [body] is the
    summary that [json.dumps] serialises. *)
Record summary : Type := {
  total_feeds_checked : nat;
  feeds_with_matches : nat;
  alerts_sent : nat;
  details : list feed_result;
}.

Record response : Type := {
  statusCode : Z;
  body : summary;
}.

(** The document [json.loads] returns: an object, or some other value. *)
Inductive document : Type :=
  | Obj (fields : gmap string jval)
  | NotObj (v : jval).

(** ** External calls *)

Inductive event : Type :=
  | S3Get (bucket key : string)
  | FeedFetch (url : string)
  | HttpPost (url : string) (headers : list (string * string)) (data : message)
  | PrintLine (line : string)
  | PrintJson (s : summary).

Record world : Type := {
  (** [s3_client.get_object] followed by [json.loads] of the body. *)
  s3_load : string → string → py_result document;
  (** [feedparser.parse]: within one run a feed answers the same each time
      it is asked. *)
  feedparser_parse : string → parse_outcome;
  requests_post : string → message → post_outcome;
  (** Which of the pending tasks the worker pool completes next. *)
  pool_choices : list nat;
}.

(** A computation with external calls: its outcome and the calls it made. *)
Abbreviation io A := (py_result A * list event)%type.

Definition io_ret {A} (a : A) : io A := (Ret a, []).
Definition io_raise {A} (e : py_exn) : io A := (Raise e, []).
Definition emit (ev : event) : io unit := (Ret (), [ev]).
Definition lift {A} (r : py_result A) : io A := (r, []).

Definition io_bind {A B} (m : io A) (k : A → io B) : io B :=
  match m with
  | (Ret a, tr) => let '(r, tr') := k a in (r, tr ++ tr')
  | (Raise e, tr) => (Raise e, tr)
  end.

Notation "x <- m ;; k" := (io_bind m (λ x, k))
  (at level 100, m at next level, right associativity).
Notation "m ;;; k" := (io_bind m (λ _, k))
  (at level 100, right associativity).

(** ** The worker pool *)

(** The order in which the pool completes the tasks: at each step the
    scheduler picks one of the tasks still pending. Every order in which
    [ThreadPoolExecutor] can complete them arises from some [choices]. *)
Fixpoint completion_order (fuel : nat) (choices pending : list nat) : list nat :=
  match fuel with
  | 0 => []
  | S fuel' =>
      let k := hd 0 choices `mod` length pending in
      match pending !! k with
      | Some i => i :: completion_order fuel' (tl choices) (delete k pending)
      | None => []
      end
  end.

(** A completed task writes its outcome into its future. *)
Definition complete {A} (tasks : list (io A))
    (futures : list (option (py_result A))) (i : nat) :
    list (option (py_result A)) :=
  match tasks !! i with
  | Some t => <[i := Some t.1]> futures
  | None => futures
  end.

(** [for future in futures: results.append(future.result())]. The pool
    completes every task it was given ([pool_completes_all] below), so no
    future is still empty when it is awaited. *)
Fixpoint collect {A} (futures : list (option (py_result A))) : py_result (list A) :=
  match futures with
  | [] => Ret []
  | Some (Ret a) :: rest =>
      match collect rest with
      | Ret l => Ret (a :: l)
      | Raise e => Raise e
      end
  | Some (Raise e) :: _ => Raise e
  | None :: _ => Raise (PyExn "RuntimeError" "future never completed")
  end.

Definition run_pool {A} (choices : list nat) (tasks : list (io A)) : io (list A) :=
  let n := length tasks in
  let order := completion_order n choices (seq 0 n) in
  let futures := foldl (complete tasks) (replicate n None) order in
  let calls := order ≫= λ i, match tasks !! i with Some t => t.2 | None => [] end in
  (collect futures, calls).

(** ** The monitor *)

Definition S3_BUCKET : string := "rss-monitoring-data".
Definition S3_KEY : string := "rss_feeds_and_keywords.json".
Definition WEBHOOK_URL : string :=
  "https://hooks.slack.com/services/your/webhook/url".

(** *** [function.py]: the keyword test of the first version *)

Definition py_lower (s : string) : string :=
  string_of_list_ascii (Re.lower <$> list_ascii_of_string s).

(** [sub in s] on two [str]. *)
Fixpoint py_in (sub s : string) : bool :=
  String.prefix sub s ||
  match s with
  | EmptyString => false
  | String _ s' => py_in sub s'
  end.

Definition match_keywords_v1 (KEYWORDS : list string) (content : string) : bool :=
  existsb (λ keyword, py_in (py_lower keyword) (py_lower content)) KEYWORDS.

(** *** [function_v2.py] *)

Section Monitor.

(** What [re.search] does with a pattern beyond the fragment of [Re]:
    nothing is assumed about it. *)
Variable re_beyond : string → string → py_result bool.

(** [re.search(pattern, content, re.IGNORECASE)], tested for truth. *)
Definition re_search (pattern content : string) : py_result bool :=
  match Re.parse pattern with
  | Re.Compiled r => Ret (Re.search r (list_ascii_of_string content))
  | Re.Error msg pos => Raise (Re.error msg pattern pos)
  | Re.Beyond => re_beyond pattern content
  end.

Fixpoint match_loop (content : string) (keywords matches : list string) :
    py_result (list string) :=
  match keywords with
  | [] => Ret matches
  | keyword :: rest =>
      match re_search ("\b" +:+ keyword +:+ "\b") content with
      | Ret found =>
          match_loop content rest
            (if found then matches ++ [keyword] else matches)
      | Raise e => Raise e
      end
  end.

Definition match_keywords (content : string) (keywords : jval) :
    py_result (list string) :=
  match py_iter keywords with
  | Ret items => match_loop content items []
  | Raise e => Raise e
  end.

(** One turn of the loop over [feed.entries]: the dictionary to append,
    if the entry matched. *)
Definition process_entry (it : feed_item) (keywords : jval) :
    py_result (option matched_entry) :=
  match it with
  | Broken err => Raise err
  | Item e =>
      let title := default "" (e_title e) in
      let summary := default "" (e_summary e) in
      let content := title +:+ " " +:+ summary in
      match match_keywords content keywords with
      | Raise err => Raise err
      | Ret [] => Ret None
      | Ret matched_keywords =>
          Ret (Some {| m_title := title;
                       m_url := default "" (e_link e);
                       m_keywords := matched_keywords |})
      end
  end.

(** The loop inside the [try]: the matches appended so far and, when a
    turn raised, [str(e)]. *)
Fixpoint process_entries (entries : list feed_item) (keywords : jval)
    (matches : list matched_entry) : list matched_entry * option string :=
  match entries with
  | [] => (matches, None)
  | it :: rest =>
      match process_entry it keywords with
      | Raise err => (matches, Some (py_str err))
      | Ret None => process_entries rest keywords matches
      | Ret (Some m) => process_entries rest keywords (matches ++ [m])
      end
  end.

(** The body of [process_feed] once [feedparser.parse] has answered: the
    [try] block and its handler. *)
Definition process_parsed (feed_url : string) (feed : parse_outcome)
    (keywords : jval) : feed_result :=
  match feed with
  | ParseRaises err =>
      {| r_feed := feed_url; r_matches := []; r_error := Some (py_str err) |}
  | Parsed entries =>
      let '(matches, error) := process_entries entries keywords [] in
      {| r_feed := feed_url; r_matches := matches; r_error := error |}
  end.

Definition process_feed (w : world) (feed_url : string) (keywords : jval) :
    io feed_result :=
  emit (FeedFetch feed_url) ;;;
  io_ret (process_parsed feed_url (feedparser_parse w feed_url) keywords).

Definition attachment_of (alert : feed_result) (m : matched_entry) : attachment :=
  {| a_title := m_title m;
     a_title_link := m_url m;
     a_text := "**Matched Keywords**: " +:+ py_join ", " (m_keywords m)
               +:+ nl +:+ "**Source**: " +:+ r_feed alert |}.

Definition build_message (alerts : list feed_result) : message :=
  {| msg_text := "🚨 **Threat Intelligence Alert** 🚨" +:+ nl;
     msg_attachments :=
       alerts ≫= λ alert, attachment_of alert <$> r_matches alert |}.

Definition send_alert (w : world) (alerts : list feed_result) : io unit :=
  let message := build_message alerts in
  let headers := [("Content-Type", "application/json")] in
  emit (HttpPost WEBHOOK_URL headers message) ;;;
  match requests_post w WEBHOOK_URL message with
  | PostRaises err => io_raise err
  | Response status_code text =>
      if bool_decide (status_code ≠ 200%Z)
      then emit (PrintLine ("Error sending alert: " +:+ text))
      else io_ret ()
  end.

Definition load_config_from_s3 (w : world) (bucket key : string) : io document :=
  emit (S3Get bucket key) ;;;
  match s3_load w bucket key with
  | Ret config => io_ret config
  | Raise e =>
      io_raise (PyExn "Exception"
                  ("Error loading configuration from S3: " +:+ py_str e))
  end.

(** [config.get(key, default)]. *)
Definition config_get (config : document) (key : string) (dflt : jval) :
    py_result jval :=
  match config with
  | Obj fields => Ret (default dflt (fields !! key))
  | NotObj v =>
      Raise (PyExn "AttributeError"
               ("'" +:+ py_type_name v +:+ "' object has no attribute 'get'"))
  end.

(** [result for result in results if "matches" in result and
    result["matches"]]: every result has the key. *)
Definition has_matches (result : feed_result) : bool :=
  match r_matches result with [] => false | _ => true end.

(** [if alerts: send_alert(alerts)]. *)
Definition dispatch (w : world) (alerts : list feed_result) : io unit :=
  match alerts with
  | [] => io_ret ()
  | _ => send_alert w alerts
  end.

Definition lambda_handler (w : world) : io response :=
  config <- load_config_from_s3 w S3_BUCKET S3_KEY ;;
  feeds <- lift (config_get config "feeds" (JList [])) ;;
  keywords <- lift (config_get config "keywords" (JList [])) ;;
  feed_list <- lift (py_iter feeds) ;;
  results <- run_pool (pool_choices w)
               ((λ feed, process_feed w feed keywords) <$> feed_list) ;;
  let alerts := List.filter has_matches results in
  dispatch w alerts ;;;
  total <- lift (py_len feeds) ;;
  let summary := {| total_feeds_checked := total;
                    feeds_with_matches := length alerts;
                    alerts_sent := length alerts;
                    details := alerts |} in
  emit (PrintJson summary) ;;;
  io_ret {| statusCode := 200; body := summary |}.

End Monitor.

(** ** Occurrences of a keyword in a text

    The two readings of "the rule occurs in the text" that the properties of
    [match_keywords] compare, for a rule taken as a literal. *)

Definition chars (s : string) : list ascii := list_ascii_of_string s.

(** [k] starts [s], case aside. *)
Fixpoint ci_prefix (k s : list ascii) : bool :=
  match k, s with
  | [], _ => true
  | c :: k', d :: s' => Re.ci_eq c d && ci_prefix k' s'
  | _ :: _, [] => false
  end.

(** The keyword occurs with a [\b] boundary at both of its ends. *)
Definition occurs_bounded (content keyword : string) : bool :=
  let s := chars content in
  let k := chars keyword in
  existsb (λ i, Re.boundary s i && ci_prefix k (drop i s)
                && Re.boundary s (i + length k))
    (seq 0 (S (length s))).


(** The keyword has no character with a meaning in a pattern. *)
Definition plain (keyword : string) : Prop :=
  Forall (λ c, Re.is_special c = false) (chars keyword).


(** ** Views of a run

    The quantities the properties below speak about. *)

(** The results of the feeds, in the order of the configured sequence. *)
Definition scan_results (re_beyond : string → string → py_result bool)
    (w : world) (feed_list : list string) (keywords : jval) : list feed_result :=
  (λ feed, process_parsed re_beyond feed (feedparser_parse w feed) keywords)
    <$> feed_list.

(** The alerts subset of step 3. *)
Definition scan_alerts (re_beyond : string → string → py_result bool)
    (w : world) (feed_list : list string) (keywords : jval) : list feed_result :=
  List.filter has_matches (scan_results re_beyond w feed_list keywords).

Definition summary_of (total : nat) (alerts : list feed_result) : summary :=
  {| total_feeds_checked := total;
     feeds_with_matches := length alerts;
     alerts_sent := length alerts;
     details := alerts |}.

Definition is_post (ev : event) : bool :=
  match ev with HttpPost _ _ _ => true | _ => false end.

Definition is_fetch (ev : event) : bool :=
  match ev with FeedFetch _ => true | _ => false end.

(** The webhook POSTs and the feed fetches among the calls of a run. *)
Definition posts (calls : list event) : list event := List.filter is_post calls.
Definition fetches (calls : list event) : list event := List.filter is_fetch calls.

(** The total number of matched entries of a list of results. *)
Definition total_matches (alerts : list feed_result) : nat :=
  sum_list (length ∘ r_matches <$> alerts).

(** The [feeds] and [keywords] the handler reads from an object. *)
Definition feeds_of (fields : gmap string jval) : jval :=
  default (JList []) (fields !! "feeds").
Definition keywords_of (fields : gmap string jval) : jval :=
  default (JList []) (fields !! "keywords").

(** The dictionaries the entries of [entries] give when their turns of the
    loop return. *)
Definition entries_matched (re_beyond : string → string → py_result bool)
    (entries : list feed_item) (keywords : jval) : list matched_entry :=
  omap (λ it, match process_entry re_beyond it keywords with
              | Ret (Some m) => Some m
              | _ => None
              end) entries.

(** The turn of the loop for [it] returns. *)
Definition turn_returns (re_beyond : string → string → py_result bool)
    (keywords : jval) (it : feed_item) : Prop :=
  ∃ o, process_entry re_beyond it keywords = Ret o.

(** ** Example runs *)

(** An oracle to run the examples with; none of them reaches it. *)
Definition re_unmodelled : string → string → py_result bool :=
  λ _ _, Raise (PyExn "NotImplementedError" "pattern beyond the fragment").

Definition entry_titled (title : string) : feed_item :=
  Item {| e_title := Some title; e_summary := None; e_link := None |}.

(** A world with the two feeds ["A"] and ["B"]. *)
Definition two_feed_world (config : py_result document) (a b : parse_outcome)
    (post : post_outcome) (choices : list nat) : world :=
  {| s3_load := λ _ _, config;
     feedparser_parse := λ url, if String.eqb url "A" then a else b;
     requests_post := λ _ _, post;
     pool_choices := choices |}.

Definition config_of (fields : list (string * jval)) : py_result document :=
  Ret (Obj (list_to_map fields)).

(** The end-to-end scenario of the specification: feed ["A"] has one entry
    titled "Ransomware hits hospital", feed ["B"] has entries without the
    keyword. *)
Definition scenario_fields : list (string * jval) :=
  [("feeds", JList ["A"; "B"]); ("keywords", JList ["Ransomware"])].

Definition scenario_A : parse_outcome :=
  Parsed [entry_titled "Ransomware hits hospital"].

Definition scenario_B : parse_outcome :=
  Parsed [entry_titled "Quarterly results"; entry_titled "Weather report"].

Definition scenario (post : post_outcome) (choices : list nat) : world :=
  two_feed_world (config_of scenario_fields) scenario_A scenario_B post choices.

Definition json_headers : list (string * string) :=
  [("Content-Type", "application/json")].

(** A feed whose parser hands back one good entry and then a [None]. *)
Definition half_read : parse_outcome :=
  Parsed [entry_titled "Ransomware hits hospital";
          Broken (PyExn "AttributeError"
                    "'NoneType' object has no attribute 'get'")].

Definition half_read_world : world :=
  two_feed_world (config_of scenario_fields) half_read scenario_B
    (Response 200 "ok") [].

Definition half_read_result : feed_result :=
  {| r_feed := "A";
     r_matches := [{| m_title := "Ransomware hits hospital";
                      m_url := "";
                      m_keywords := ["Ransomware"] |}];
     r_error := Some "'NoneType' object has no attribute 'get'" |}.

(** The scenario with a webhook that cannot be reached. *)
Definition unreachable_webhook_world : world :=
  scenario (PostRaises (PyExn "ConnectionError" "connection refused")) [].

(** Configurations with a malformed [feeds] and with no [keywords]. *)
Definition numeric_feeds_world : world :=
  two_feed_world
    (config_of [("feeds", JInt 5); ("keywords", JList ["Ransomware"])])
    scenario_A scenario_B (Response 200 "ok") [].

Definition no_keywords_world : world :=
  two_feed_world (config_of [("feeds", JList ["A"; "B"])])
    scenario_A scenario_B (Response 200 "ok") [].

(** ** The statements of the specification that the code does not meet *)

(** C2: no error-marked result is in the alerts subset. *)
Definition errored_feeds_excluded (re_beyond : string → string → py_result bool)
    (w : world) (feed_list : list string) (keywords : jval) : Prop :=
  ∀ r, r ∈ scan_results re_beyond w feed_list keywords →
       r_error r ≠ None →
       r ∉ scan_alerts re_beyond w feed_list keywords.

(** C3: a run whose POST throws or is answered with a status outside 2xx
    still returns its summary with status 200. *)
Definition delivery_failed (w : world) (ev : event) : Prop :=
  match ev with
  | HttpPost url _ data =>
      match requests_post w url data with
      | PostRaises _ => True
      | Response status_code _ => ¬ (200 ≤ status_code < 300)%Z
      end
  | _ => False
  end.

Definition delivery_failure_absorbed
    (re_beyond : string → string → py_result bool) (w : world) : Prop :=
  ∀ ev, ev ∈ (lambda_handler re_beyond w).2 → delivery_failed w ev →
        ∃ resp, (lambda_handler re_beyond w).1 = Ret resp ∧
                statusCode resp = 200%Z.

(** C8: a field that is missing, or present but not an array, counts as the
    empty sequence and the run is a no-op scan. *)
Definition unusable (fields : gmap string jval) (key : string) : Prop :=
  match fields !! key with
  | None => True
  | Some (JList _) => False
  | Some _ => True
  end.

Definition unusable_fields_default
    (re_beyond : string → string → py_result bool) (w : world) : Prop :=
  ∀ fields,
    s3_load w S3_BUCKET S3_KEY = Ret (Obj fields) →
    unusable fields "feeds" ∨ unusable fields "keywords" →
    fetches (lambda_handler re_beyond w).2 = [] ∧
    posts (lambda_handler re_beyond w).2 = [] ∧
    ∃ resp, (lambda_handler re_beyond w).1 = Ret resp ∧
            statusCode resp = 200%Z.


(** The scenario with a parenthesis among the keywords. *)
Definition parenthesis_world : world :=
  two_feed_world
    (config_of [("feeds", JList ["A"; "B"]);
                ("keywords", JList ["Ransomware"; "("])])
    scenario_A scenario_B (Response 200 "ok") [].

(** ** [function.py]: the first version of the monitor

    The feeds, the keywords and the webhook are module constants; the loop
    is sequential, has no [try], and sends one alert for each matching
    entry. *)

Module V1.

Definition RSS_FEEDS : list string :=
  ["https://www.securityweek.com/rss.xml";
   "https://feeds.feedburner.com/TheHackersNews";
   "https://dailydarkweb.net/feed/"].

Definition KEYWORDS : list string :=
  ["Indonesia"; "Data Breach"; "Cyber Attack"; "Ransomware"; "Zero-Day"].

Definition WEBHOOK_URL : string := "PUT YOUR WEBHOOK URL HERE".

(** The three fields this version reads from an entry. *)
Record entry : Type := {
  title : option string;
  description : option string;
  link : option string;
}.

Inductive feed_item : Type :=
  | Item (e : entry)
  | Broken (err : py_exn).

Inductive parse_outcome : Type :=
  | ParseRaises (err : py_exn)
  | Parsed (entries : list feed_item).

(** The external calls; the data of a POST is the ["text"] of the message. *)
Inductive event : Type :=
  | Fetch (url : string)
  | Post (url : string) (headers : list (string * string)) (text : string)
  | Printed (line : string).

Record world : Type := {
  feedparser_parse : string → parse_outcome;
  requests_post : string → string → post_outcome;
}.

Record response : Type := {
  statusCode : Z;
  body : string;
}.

Definition match_keywords (content : string) : bool :=
  match_keywords_v1 KEYWORDS content.

Definition alert_text (title link source : string) : string :=
  "🚨 **Threat Alert Detected**" +:+ nl +:+ "- **Title**: " +:+ title
  +:+ nl +:+ "- **Source**: " +:+ source +:+ nl +:+ "- **Link**: " +:+ link.

Definition send_alert (w : world) (title link source : string) :
    py_result unit * list event :=
  let text := alert_text title link source in
  let post := Post WEBHOOK_URL [("Content-Type", "application/json")] text in
  match requests_post w WEBHOOK_URL text with
  | PostRaises err => (Raise err, [post])
  | Response status_code answer =>
      (Ret (),
       post :: if bool_decide (status_code ≠ 200%Z)
               then [Printed ("Failed to send alert: " +:+ answer)] else [])
  end.

(** The content the keywords are looked for in. *)
Definition content_of (e : entry) : string :=
  default "" (title e) +:+ " " +:+ default "" (description e).

(** [for entry in feed.entries]. *)
Fixpoint process_entries (w : world) (feed_url : string)
    (entries : list feed_item) : py_result unit * list event :=
  match entries with
  | [] => (Ret (), [])
  | Broken err :: _ => (Raise err, [])
  | Item e :: rest =>
      if match_keywords (content_of e) then
        match send_alert w (default "" (title e)) (default "" (link e))
                feed_url with
        | (Ret _, sent) =>
            let '(r, calls) := process_entries w feed_url rest in
            (r, sent ++ calls)
        | (Raise err, sent) => (Raise err, sent)
        end
      else process_entries w feed_url rest
  end.

(** [for feed_url in RSS_FEEDS]. *)
Fixpoint process_feeds (w : world) (feeds : list string) :
    py_result unit * list event :=
  match feeds with
  | [] => (Ret (), [])
  | feed_url :: rest =>
      match feedparser_parse w feed_url with
      | ParseRaises err => (Raise err, [Fetch feed_url])
      | Parsed entries =>
          match process_entries w feed_url entries with
          | (Ret _, sent) =>
              let '(r, calls) := process_feeds w rest in
              (r, Fetch feed_url :: sent ++ calls)
          | (Raise err, sent) => (Raise err, Fetch feed_url :: sent)
          end
      end
  end.

Definition lambda_handler (w : world) : py_result response * list event :=
  match process_feeds w RSS_FEEDS with
  | (Ret _, calls) =>
      (Ret {| statusCode := 200; body := "RSS Feed Monitoring Completed" |},
       calls)
  | (Raise err, calls) => (Raise err, calls)
  end.

(** The alerts the matching entries of a feed give, in the order of the
    entries. *)
Definition alerts_of (feed_url : string) (entries : list feed_item) :
    list string :=
  omap (λ it, match it with
              | Item e =>
                  if match_keywords (content_of e)
                  then Some (alert_text (default "" (title e))
                               (default "" (link e)) feed_url)
                  else None
              | Broken _ => None
              end) entries.

Definition is_post (ev : event) : bool :=
  match ev with Post _ _ _ => true | _ => false end.

Definition is_fetch (ev : event) : bool :=
  match ev with Fetch _ => true | _ => false end.

(** The texts posted and the feeds fetched, in the order of the calls. *)
Definition posted (calls : list event) : list string :=
  omap (λ ev, match ev with Post _ _ text => Some text | _ => None end) calls.

Definition fetched (calls : list event) : list string :=
  omap (λ ev, match ev with Fetch url => Some url | _ => None end) calls.

(** The feed parses and all its items are entries. *)
Definition well_formed (w : world) (feed_url : string) : Prop :=
  ∃ entries, feedparser_parse w feed_url = Parsed (Item <$> entries).

(** The entries of a feed, when it parses. *)
Definition items_of (w : world) (feed_url : string) : list feed_item :=
  match feedparser_parse w feed_url with
  | Parsed entries => entries
  | ParseRaises _ => []
  end.

(** A world for the examples: the first feed has one entry about
    ransomware, the others have none, the webhook answers [status]. *)
Definition example_world (status : Z) : world :=
  {| feedparser_parse := λ url,
       if String.eqb url "https://www.securityweek.com/rss.xml"
       then Parsed [Item {| title := Some "Ransomware hits hospital";
                            description := None;
                            link := Some "https://example.org/1" |}]
       else Parsed [];
     requests_post := λ _ _, Response status "" |}.

(** The same world with a second feed that cannot be fetched. *)
Definition example_outage : world :=
  {| feedparser_parse := λ url,
       if String.eqb url "https://www.securityweek.com/rss.xml"
       then Parsed [Item {| title := Some "Ransomware hits hospital";
                            description := None;
                            link := Some "https://example.org/1" |}]
       else ParseRaises (PyExn "URLError" "timed out");
     requests_post := λ _ _, Response 200 "" |}.

End V1.

(** The keyword occurs somewhere in the content, case aside. *)
Definition occurs_ci (content keyword : string) : bool :=
  let s := chars content in
  let k := chars keyword in
  existsb (λ i, ci_prefix k (drop i s)) (seq 0 (S (length s))).

(** ** The monitor on any configuration

    The same functions of [function_v2.py] on the values a configuration
    document can really hold: the items of an array need not be strings, a
    field may be an object, and what a collaborator raises need not be an
    [Exception]. *)

Module Dyn.

(** The types of the values of a JSON document that are not [str]. *)
Inductive scalar_type : Type := SNone | SBool | SInt | SFloat.

Inductive other_type : Type :=
  | OScalar (t : scalar_type)
  | OList
  | ODict.

Definition scalar_name (t : scalar_type) : string :=
  match t with
  | SNone => "NoneType"
  | SBool => "bool"
  | SInt => "int"
  | SFloat => "float"
  end.

Definition other_name (t : other_type) : string :=
  match t with
  | OScalar s => scalar_name s
  | OList => "list"
  | ODict => "dict"
  end.

(** An item of an array: a [str], or another object, given by its type and
    by the text [str()] and an f-string make of it. *)
Inductive pyval : Type :=
  | Str (s : string)
  | Other (t : other_type) (text : string).

(** [f"{v}"]. *)
Definition py_format (v : pyval) : string :=
  match v with
  | Str s => s
  | Other _ text => text
  end.

(** The first item that is not a [str], with its index counted from [i]. *)
Fixpoint first_other (items : list pyval) (i : nat) : option (nat * other_type) :=
  match items with
  | [] => None
  | Str _ :: rest => first_other rest (S i)
  | Other t _ :: _ => Some (i, t)
  end.

(** [sep.join(items)]: a [TypeError] at the first item that is not a
    [str]. *)
Definition py_join_items (sep : string) (items : list pyval) : py_result string :=
  match first_other items 0 with
  | Some (i, t) =>
      Raise (PyExn "TypeError"
               ("sequence item " +:+ pretty i +:+ ": expected str instance, "
                +:+ other_name t +:+ " found"))
  | None => Ret (py_join sep (py_format <$> items))
  end.

(** The value of a field of the configuration object. *)
Inductive field : Type :=
  | Array (items : list pyval)
  | Text (s : string)
  | Object (keys : list string)
  | Scalar (t : scalar_type).

(** [for x in v]: an array yields its items, a [str] its characters, an
    object its keys; a scalar raises [TypeError]. *)
Definition py_iter (v : field) : py_result (list pyval) :=
  match v with
  | Array items => Ret items
  | Text s => Ret ((λ c, Str (String c "")) <$> list_ascii_of_string s)
  | Object keys => Ret (Str <$> keys)
  | Scalar t =>
      Raise (PyExn "TypeError"
               ("'" +:+ scalar_name t +:+ "' object is not iterable"))
  end.

(** [len(v)]. *)
Definition py_len (v : field) : py_result nat :=
  match v with
  | Array items => Ret (length items)
  | Text s => Ret (String.length s)
  | Object keys => Ret (length keys)
  | Scalar t =>
      Raise (PyExn "TypeError"
               ("object of type '" +:+ scalar_name t +:+ "' has no len()"))
  end.

(** What [json.loads] returns: an object, or a value of another type, of
    which only the name of the type matters. *)
Inductive document : Type :=
  | Obj (fields : gmap string field)
  | NotObj (type_name : string).

(** What a collaborator raises, and whether [except Exception] catches
    it. *)
Record thrown : Type := {
  exn : py_exn;
  is_exception : bool;
}.

Inductive load_outcome : Type :=
  | LoadRaises (err : thrown)
  | Loaded (doc : document).

Inductive feed_item : Type :=
  | Item (e : entry)
  | Broken (err : thrown).

Inductive parse_outcome : Type :=
  | ParseRaises (err : thrown)
  | Parsed (entries : list feed_item).

Record matched_entry : Type := {
  m_title : string;
  m_url : string;
  m_keywords : list pyval;
}.

Record feed_result : Type := {
  r_feed : pyval;
  r_matches : list matched_entry;
  r_error : option string;
}.

Record summary : Type := {
  total_feeds_checked : nat;
  feeds_with_matches : nat;
  alerts_sent : nat;
  details : list feed_result;
}.

Record response : Type := {
  statusCode : Z;
  body : summary;
}.

Inductive event : Type :=
  | S3Get (bucket key : string)
  | FeedFetch (url : pyval)
  | HttpPost (url : string) (headers : list (string * string)) (data : message)
  | PrintLine (line : string)
  | PrintJson (s : summary).

Record world : Type := {
  s3_load : string → string → load_outcome;
  feedparser_parse : pyval → parse_outcome;
  requests_post : string → message → post_outcome;
  pool_choices : list nat;
}.

(** Computations with external calls, as above. *)
Abbreviation io A := (py_result A * list event)%type.

Definition io_ret {A} (a : A) : io A := (Ret a, []).
Definition io_raise {A} (e : py_exn) : io A := (Raise e, []).
Definition emit (ev : event) : io unit := (Ret (), [ev]).
Definition lift {A} (r : py_result A) : io A := (r, []).

Definition io_bind {A B} (m : io A) (k : A → io B) : io B :=
  match m with
  | (Ret a, tr) => let '(r, tr') := k a in (r, tr ++ tr')
  | (Raise e, tr) => (Raise e, tr)
  end.

Declare Scope dyn_scope.
Delimit Scope dyn_scope with dyn.
Notation "x <- m ;; k" := (io_bind m (λ x, k))
  (at level 100, m at next level, right associativity) : dyn_scope.
Notation "m ;;; k" := (io_bind m (λ _, k))
  (at level 100, right associativity) : dyn_scope.
Local Open Scope dyn_scope.

(** The worker pool, as above. *)
Definition complete {A} (tasks : list (io A))
    (futures : list (option (py_result A))) (i : nat) :
    list (option (py_result A)) :=
  match tasks !! i with
  | Some t => <[i := Some t.1]> futures
  | None => futures
  end.

Definition run_pool {A} (choices : list nat) (tasks : list (io A)) : io (list A) :=
  let n := length tasks in
  let order := completion_order n choices (seq 0 n) in
  let futures := foldl (complete tasks) (replicate n None) order in
  let calls := order ≫= λ i, match tasks !! i with Some t => t.2 | None => [] end in
  (collect futures, calls).

Section Monitor.

Variable re_beyond : string → string → py_result bool.

Fixpoint match_loop (content : string) (keywords matches : list pyval) :
    py_result (list pyval) :=
  match keywords with
  | [] => Ret matches
  | keyword :: rest =>
      match re_search re_beyond ("\b" +:+ py_format keyword +:+ "\b") content with
      | Ret found =>
          match_loop content rest
            (if found then matches ++ [keyword] else matches)
      | Raise e => Raise e
      end
  end.

Definition match_keywords (content : string) (keywords : field) :
    py_result (list pyval) :=
  match py_iter keywords with
  | Ret items => match_loop content items []
  | Raise e => Raise e
  end.

(** What a turn of the loop over [feed.entries] does: it goes on, with a
    dictionary to append or without, or it raises. What [match_keywords]
    raises is an [Exception]. *)
Inductive turn : Type :=
  | GoesOn (m : option matched_entry)
  | Raises (err : thrown).

Definition process_entry (it : feed_item) (keywords : field) : turn :=
  match it with
  | Broken err => Raises err
  | Item e =>
      let title := default "" (e_title e) in
      let summary := default "" (e_summary e) in
      let content := title +:+ " " +:+ summary in
      match match_keywords content keywords with
      | Raise err => Raises {| exn := err; is_exception := true |}
      | Ret [] => GoesOn None
      | Ret matched_keywords =>
          GoesOn (Some {| m_title := title;
                          m_url := default "" (e_link e);
                          m_keywords := matched_keywords |})
      end
  end.

(** The loop inside the [try]: the matches appended so far and, when a turn
    raised, what it raised. *)
Fixpoint process_entries (entries : list feed_item) (keywords : field)
    (matches : list matched_entry) : list matched_entry * option thrown :=
  match entries with
  | [] => (matches, None)
  | it :: rest =>
      match process_entry it keywords with
      | Raises err => (matches, Some err)
      | GoesOn None => process_entries rest keywords matches
      | GoesOn (Some m) => process_entries rest keywords (matches ++ [m])
      end
  end.

(** The [try] block and its handler: [except Exception] turns an
    [Exception] into the [error] of the result and lets anything else
    through. *)
Definition process_parsed (feed_url : pyval) (feed : parse_outcome)
    (keywords : field) : py_result feed_result :=
  let '(matches, stopped) :=
    match feed with
    | ParseRaises err => ([], Some err)
    | Parsed entries => process_entries entries keywords []
    end in
  match stopped with
  | None => Ret {| r_feed := feed_url; r_matches := matches; r_error := None |}
  | Some err =>
      if is_exception err
      then Ret {| r_feed := feed_url; r_matches := matches;
                  r_error := Some (py_str (exn err)) |}
      else Raise (exn err)
  end.

Definition process_feed (w : world) (feed_url : pyval) (keywords : field) :
    io feed_result :=
  emit (FeedFetch feed_url) ;;;
  lift (process_parsed feed_url (feedparser_parse w feed_url) keywords).

(** One turn of the inner loop of [send_alert]. *)
Definition attachment_of (alert : feed_result) (m : matched_entry) :
    py_result attachment :=
  match py_join_items ", " (m_keywords m) with
  | Raise e => Raise e
  | Ret joined =>
      Ret {| a_title := m_title m;
             a_title_link := m_url m;
             a_text := "**Matched Keywords**: " +:+ joined
                       +:+ nl +:+ "**Source**: " +:+ py_format (r_feed alert) |}
  end.

(** The attachments of a list of turns, up to the first that raises. *)
Fixpoint sequence {A} (turns : list (py_result A)) : py_result (list A) :=
  match turns with
  | [] => Ret []
  | Ret a :: rest =>
      match sequence rest with
      | Ret l => Ret (a :: l)
      | Raise e => Raise e
      end
  | Raise e :: _ => Raise e
  end.

Definition build_message (alerts : list feed_result) : py_result message :=
  match sequence (alerts ≫= λ alert, attachment_of alert <$> r_matches alert) with
  | Raise e => Raise e
  | Ret attachments =>
      Ret {| msg_text := "🚨 **Threat Intelligence Alert** 🚨" +:+ nl;
             msg_attachments := attachments |}
  end.

Definition send_alert (w : world) (alerts : list feed_result) : io unit :=
  message <- lift (build_message alerts) ;;
  let headers := [("Content-Type", "application/json")] in
  emit (HttpPost WEBHOOK_URL headers message) ;;;
  match requests_post w WEBHOOK_URL message with
  | PostRaises err => io_raise err
  | Response status_code text =>
      if bool_decide (status_code ≠ 200%Z)
      then emit (PrintLine ("Error sending alert: " +:+ text))
      else io_ret ()
  end.

(** [except Exception as e: raise Exception(...)]. *)
Definition load_config_from_s3 (w : world) (bucket key : string) : io document :=
  emit (S3Get bucket key) ;;;
  match s3_load w bucket key with
  | Loaded config => io_ret config
  | LoadRaises err =>
      if is_exception err
      then io_raise (PyExn "Exception"
                       ("Error loading configuration from S3: "
                        +:+ py_str (exn err)))
      else io_raise (exn err)
  end.

Definition config_get (config : document) (key : string) (dflt : field) :
    py_result field :=
  match config with
  | Obj fields => Ret (default dflt (fields !! key))
  | NotObj type_name =>
      Raise (PyExn "AttributeError"
               ("'" +:+ type_name +:+ "' object has no attribute 'get'"))
  end.

Definition has_matches (result : feed_result) : bool :=
  match r_matches result with [] => false | _ => true end.

Definition dispatch (w : world) (alerts : list feed_result) : io unit :=
  match alerts with
  | [] => io_ret ()
  | _ => send_alert w alerts
  end.

Definition lambda_handler (w : world) : io response :=
  config <- load_config_from_s3 w S3_BUCKET S3_KEY ;;
  feeds <- lift (config_get config "feeds" (Array [])) ;;
  keywords <- lift (config_get config "keywords" (Array [])) ;;
  feed_list <- lift (py_iter feeds) ;;
  results <- run_pool (pool_choices w)
               ((λ feed, process_feed w feed keywords) <$> feed_list) ;;
  let alerts := List.filter has_matches results in
  dispatch w alerts ;;;
  total <- lift (py_len feeds) ;;
  let summary := {| total_feeds_checked := total;
                    feeds_with_matches := length alerts;
                    alerts_sent := length alerts;
                    details := alerts |} in
  emit (PrintJson summary) ;;;
  io_ret {| statusCode := 200; body := summary |}.

End Monitor.

(** *** Views of a run *)

Definition feeds_of (fields : gmap string field) : field :=
  default (Array []) (fields !! "feeds").
Definition keywords_of (fields : gmap string field) : field :=
  default (Array []) (fields !! "keywords").

(** What the futures give when they are read in the order of the feeds: the
    results, or what the first feed that raises raised. *)
Definition scan_results (re_beyond : string → string → py_result bool)
    (w : world) (feed_list : list pyval) (keywords : field) :
    py_result (list feed_result) :=
  sequence ((λ feed, process_parsed re_beyond feed (feedparser_parse w feed)
                       keywords) <$> feed_list).

Definition is_post (ev : event) : bool :=
  match ev with HttpPost _ _ _ => true | _ => false end.

Definition is_fetch (ev : event) : bool :=
  match ev with FeedFetch _ => true | _ => false end.

Definition posts (calls : list event) : list event := List.filter is_post calls.
Definition fetches (calls : list event) : list event := List.filter is_fetch calls.

Definition is_str (v : pyval) : bool :=
  match v with Str _ => true | Other _ _ => false end.

(** Every keyword of every matched entry of the results is a [str]. *)
Definition str_keywords (alerts : list feed_result) : bool :=
  forallb (λ alert, forallb (λ m, forallb is_str (m_keywords m))
                      (r_matches alert)) alerts.

(** The attachment [send_alert] builds for a matched entry whose keywords
    are strings, written out. *)
Definition attachment_for (alert : feed_result) (m : matched_entry) : attachment :=
  {| a_title := m_title m;
     a_title_link := m_url m;
     a_text := "**Matched Keywords**: "
               +:+ py_join ", " (py_format <$> m_keywords m)
               +:+ nl +:+ "**Source**: " +:+ py_format (r_feed alert) |}.

Definition total_matches (alerts : list feed_result) : nat :=
  sum_list (length ∘ r_matches <$> alerts).

(** *** Example runs *)

Definition one_feed_world (fields : list (string * field)) (a : parse_outcome)
    (post : post_outcome) : world :=
  {| s3_load := λ _ _, Loaded (Obj (list_to_map fields));
     feedparser_parse := λ _, a;
     requests_post := λ _ _, post;
     pool_choices := [] |}.

(** A keyword that is the number 1, and an entry that has it. *)
Definition numeric_keyword_fields : list (string * field) :=
  [("feeds", Array [Str "A"]);
   ("keywords", Array [Other (OScalar SInt) "1"])].

Definition numeric_keyword_world : world :=
  one_feed_world numeric_keyword_fields
    (Parsed [Item {| e_title := Some "Top 1 threats this week";
                     e_summary := None; e_link := None |}])
    (Response 200 "ok").

(** The same entry with the keyword as a string. *)
Definition string_keyword_fields : list (string * field) :=
  [("feeds", Array [Str "A"]); ("keywords", Array [Str "threats"])].

Definition string_keyword_world : world :=
  one_feed_world string_keyword_fields
    (Parsed [Item {| e_title := Some "Top 1 threats this week";
                     e_summary := None; e_link := None |}])
    (Response 200 "ok").

End Dyn.

(** ** Texts the model of [re] speaks for

    The word characters and the case of [Module Re] are those of Python on
    ASCII text; the properties of the matching that depend on them are stated
    for ASCII contents and keywords. *)
Definition is_ascii_text (s : string) : bool :=
  forallb (λ c, (nat_of_ascii c <? 128)%nat) (chars s).


(** C4: a run that reaches the dispatch makes one POST when it has alerts
    and none when it has not. *)
Definition posts_once_per_run (re_beyond : string → string → py_result bool)
    (w : Dyn.world) : Prop :=
  ∀ fields feed_list results,
    Dyn.s3_load w S3_BUCKET S3_KEY = Dyn.Loaded (Dyn.Obj fields) →
    Dyn.py_iter (Dyn.feeds_of fields) = Ret feed_list →
    Dyn.scan_results re_beyond w feed_list (Dyn.keywords_of fields)
      = Ret results →
    length (Dyn.posts (Dyn.lambda_handler re_beyond w).2)
    = match List.filter Dyn.has_matches results with
      | [] => 0
      | _ => 1
      end.

(** ** Properties *)

(** *** The worker pool *)

Lemma completion_order_perm (choices pending : list nat) :
  completion_order (length pending) choices pending ≡ₚ pending.
Proof.
  remember (length pending) as fuel eqn:Hlen.
  revert choices pending Hlen.
  induction fuel as [|fuel IH]; intros choices pending Hlen.
  - destruct pending; [done | discriminate].
  - simpl.
    assert (Hk : hd 0 choices `mod` length pending < length pending)
      by (apply Nat.mod_upper_bound; lia).
    destruct (lookup_lt_is_Some_2 pending _ Hk) as [i Hi].
    rewrite Hi.
    etrans; [| symmetry; exact (delete_Permutation pending _ i Hi)].
    constructor. apply IH.
    rewrite length_delete; [lia | eauto].
Qed.

Lemma completion_order_perm_seq (choices : list nat) (n : nat) :
  completion_order n choices (seq 0 n) ≡ₚ seq 0 n.
Proof.
  pose proof (completion_order_perm choices (seq 0 n)) as H.
  by rewrite length_seq in H.
Qed.

Lemma complete_length {A} (tasks : list (io A)) futures i :
  length (complete tasks futures i) = length futures.
Proof. unfold complete. destruct (tasks !! i); [apply length_insert | done]. Qed.

(** After the tasks of [order] have completed, the futures of those tasks
    hold their outcomes and the other futures are as they were. *)
Lemma foldl_complete_lookup {A} (tasks : list (io A)) order futures i :
  length futures = length tasks →
  foldl (complete tasks) futures order !! i =
    if decide (i ∈ order) then (Some ∘ fst) <$> tasks !! i else futures !! i.
Proof.
  revert futures.
  induction order as [|j order IH]; intros futures Hlen; cbn [foldl].
  - by rewrite decide_False by apply not_elem_of_nil.
  - rewrite IH by (by rewrite complete_length).
    destruct (decide (i ∈ order)) as [Hin|Hnin].
    + rewrite decide_True; [done | by right].
    + destruct (decide (i = j)) as [->|Hne].
      * rewrite decide_True by left. unfold complete.
        destruct (tasks !! j) as [t|] eqn:Ht; simpl.
        -- apply list_lookup_insert_eq. rewrite Hlen. by eapply lookup_lt_Some.
        -- apply lookup_ge_None. rewrite Hlen. by apply lookup_ge_None.
      * rewrite decide_False by (intros [?|?]%elem_of_cons; done).
        unfold complete. destruct (tasks !! j); [|done].
        by apply list_lookup_insert_ne.
Qed.

(** Whatever the scheduler chooses, every future ends up holding the
    outcome of its own task. *)
Lemma pool_completes_all {A} (choices : list nat) (tasks : list (io A)) :
  foldl (complete tasks) (replicate (length tasks) None)
    (completion_order (length tasks) choices (seq 0 (length tasks)))
  = (Some ∘ fst) <$> tasks.
Proof.
  apply list_eq; intros i.
  rewrite foldl_complete_lookup by apply length_replicate.
  pose proof (completion_order_perm choices (seq 0 (length tasks))) as Hperm.
  rewrite length_seq in Hperm.
  case_decide as Hin; [by rewrite list_lookup_fmap|].
  rewrite list_lookup_fmap.
  assert (length tasks ≤ i)%nat as Hge.
  { destruct (decide (i < length tasks)%nat) as [Hlt|]; [|lia].
    exfalso. apply Hin. rewrite Hperm. apply elem_of_seq. lia. }
  pose proof (lookup_ge_None_2 tasks i Hge) as Hnone.
  rewrite Hnone.
  apply lookup_ge_None_2. by rewrite length_replicate.
Qed.

Lemma collect_returns {A B} (f : B → A) (calls : B → list event) (l : list B) :
  collect ((Some ∘ fst) <$> ((λ x, (Ret (f x), calls x)) <$> l)) = Ret (f <$> l).
Proof. induction l as [|x l IH]; [done|]. rewrite !fmap_cons. simpl. by rewrite IH. Qed.

Lemma bind_seq_lookup {A B} (h : A → list B) (l : list A) :
  (seq 0 (length l) ≫= λ i, match l !! i with Some x => h x | None => [] end)
  = l ≫= h.
Proof.
  induction l as [|x l IH]; [done|].
  cbn [length seq]. rewrite !bind_cons, <-fmap_S_seq, list_fmap_bind.
  cbn [lookup list_lookup]. by rewrite <-IH.
Qed.

(** *** The handler, step by step *)

Lemma process_feed_run rb w feed_url keywords :
  process_feed rb w feed_url keywords =
    (Ret (process_parsed rb feed_url (feedparser_parse w feed_url) keywords),
     [FeedFetch feed_url]).
Proof. reflexivity. Qed.

(** Step 2: the pool returns the results in the order of the feeds, and
    fetches every feed once, in the order the scheduler chose. *)
Lemma run_pool_process_feed rb w choices feed_list keywords :
  ∃ fetched,
    fetched ≡ₚ FeedFetch <$> feed_list ∧
    run_pool choices ((λ feed, process_feed rb w feed keywords) <$> feed_list)
    = (Ret (scan_results rb w feed_list keywords), fetched).
Proof.
  unfold run_pool. eexists. split; [|f_equal].
  - rewrite completion_order_perm_seq.
    rewrite (bind_seq_lookup (λ t : io feed_result, t.2)).
    rewrite list_fmap_bind.
    induction feed_list as [|u l IH]; [done|].
    rewrite bind_cons, fmap_cons. simpl. by constructor.
  - rewrite pool_completes_all.
    apply (collect_returns
             (λ feed, process_parsed rb feed (feedparser_parse w feed) keywords)
             (λ feed, [FeedFetch feed])).
Qed.

Lemma py_len_iter (v : jval) (l : list string) :
  py_iter v = Ret l → py_len v = Ret (length l).
Proof.
  destruct v as [| | |s|items]; simpl; try discriminate.
  - intros [= <-]. f_equal. rewrite length_fmap.
    induction s as [|c s IH]; [done|]. simpl. by rewrite IH.
  - by intros [= <-].
Qed.

(** A run whose configuration loads as an object with an iterable [feeds]:
    the calls are the S3 read, the fetches, what the dispatch does and the
    printed summary. *)
Lemma lambda_handler_run rb w fields feed_list :
  s3_load w S3_BUCKET S3_KEY = Ret (Obj fields) →
  py_iter (feeds_of fields) = Ret feed_list →
  ∃ fetched,
    fetched ≡ₚ FeedFetch <$> feed_list ∧
    lambda_handler rb w =
      let alerts := scan_alerts rb w feed_list (keywords_of fields) in
      let s := summary_of (length feed_list) alerts in
      match dispatch w alerts with
      | (Ret _, sent) =>
          (Ret {| statusCode := 200; body := s |},
           S3Get S3_BUCKET S3_KEY :: fetched ++ sent ++ [PrintJson s])
      | (Raise e, sent) => (Raise e, S3Get S3_BUCKET S3_KEY :: fetched ++ sent)
      end.
Proof.
  intros Hload Hiter.
  destruct (run_pool_process_feed rb w (pool_choices w) feed_list
              (keywords_of fields)) as (fetched & Hperm & Hpool).
  exists fetched. split; [done|].
  unfold lambda_handler, load_config_from_s3. rewrite Hload.
  cbn [io_bind emit io_ret lift config_get app].
  fold (feeds_of fields) (keywords_of fields).
  rewrite Hiter. cbn [io_bind]. rewrite Hpool. cbn [io_bind].
  fold (scan_alerts rb w feed_list (keywords_of fields)).
  rewrite (py_len_iter _ _ Hiter).
  destruct (dispatch w _) as [[[]|e] sent]; cbn [io_bind lift emit io_ret app];
    unfold summary_of; by rewrite ?app_nil_r, <-?app_assoc.
Qed.

Lemma lambda_handler_load_fails rb w e :
  s3_load w S3_BUCKET S3_KEY = Raise e →
  lambda_handler rb w =
    (Raise (PyExn "Exception"
              ("Error loading configuration from S3: " +:+ py_str e)),
     [S3Get S3_BUCKET S3_KEY]).
Proof.
  intros Hload. unfold lambda_handler, load_config_from_s3. by rewrite Hload.
Qed.

Lemma lambda_handler_not_object rb w v :
  s3_load w S3_BUCKET S3_KEY = Ret (NotObj v) →
  lambda_handler rb w =
    (Raise (PyExn "AttributeError"
              ("'" +:+ py_type_name v +:+ "' object has no attribute 'get'")),
     [S3Get S3_BUCKET S3_KEY]).
Proof.
  intros Hload. unfold lambda_handler, load_config_from_s3. by rewrite Hload.
Qed.

Lemma lambda_handler_not_iterable rb w fields e :
  s3_load w S3_BUCKET S3_KEY = Ret (Obj fields) →
  py_iter (feeds_of fields) = Raise e →
  lambda_handler rb w = (Raise e, [S3Get S3_BUCKET S3_KEY]).
Proof.
  intros Hload Hiter. unfold lambda_handler, load_config_from_s3.
  rewrite Hload. cbn [io_bind emit io_ret lift config_get app].
  fold (feeds_of fields). by rewrite Hiter.
Qed.

(** *** Dispatch *)

Lemma dispatch_nothing w : dispatch w [] = (Ret (), []).
Proof. reflexivity. Qed.

Lemma dispatch_sends w (alerts : list feed_result) :
  alerts ≠ [] →
  dispatch w alerts =
    let post := HttpPost WEBHOOK_URL json_headers (build_message alerts) in
    match requests_post w WEBHOOK_URL (build_message alerts) with
    | PostRaises err => (Raise err, [post])
    | Response status_code text =>
        (Ret (),
         post :: if bool_decide (status_code ≠ 200%Z)
                 then [PrintLine ("Error sending alert: " +:+ text)] else [])
    end.
Proof.
  intros Hne. destruct alerts as [|alert alerts]; [done|].
  unfold dispatch, send_alert. cbn [io_bind emit].
  destruct (requests_post w _ _) as [err|code text]; [done|].
  by case_bool_decide.
Qed.

Lemma filter_none {A} (f : A → bool) (l : list A) :
  (∀ x, x ∈ l → f x = false) → List.filter f l = [].
Proof.
  induction l as [|x l IH]; intros Hall; [done|].
  simpl. rewrite (Hall x) by left. apply IH. intros y Hy. apply Hall. by right.
Qed.

Lemma filter_all {A} (f : A → bool) (l : list A) :
  (∀ x, x ∈ l → f x = true) → List.filter f l = l.
Proof.
  induction l as [|x l IH]; intros Hall; [done|].
  simpl. rewrite (Hall x) by left. f_equal. apply IH. intros y Hy. apply Hall. by right.
Qed.

Lemma posts_fetched (fetched : list event) (feed_list : list string) :
  fetched ≡ₚ FeedFetch <$> feed_list → posts fetched = [].
Proof.
  intros Hperm. apply filter_none. intros ev Hev.
  rewrite Hperm in Hev. by apply list_elem_of_fmap in Hev as (u & -> & _).
Qed.

Lemma fetches_fetched (fetched : list event) (feed_list : list string) :
  fetched ≡ₚ FeedFetch <$> feed_list → fetches fetched = fetched.
Proof.
  intros Hperm. apply filter_all. intros ev Hev.
  rewrite Hperm in Hev. by apply list_elem_of_fmap in Hev as (u & -> & _).
Qed.

Lemma posts_app (l1 l2 : list event) : posts (l1 ++ l2) = posts l1 ++ posts l2.
Proof. apply List.filter_app. Qed.

Lemma fetches_app (l1 l2 : list event) :
  fetches (l1 ++ l2) = fetches l1 ++ fetches l2.
Proof. apply List.filter_app. Qed.

(** The POSTs of a dispatch: one when there are alerts, none otherwise. *)
Lemma posts_dispatch w (alerts : list feed_result) :
  posts (dispatch w alerts).2 =
    match alerts with
    | [] => []
    | _ => [HttpPost WEBHOOK_URL json_headers (build_message alerts)]
    end
  ∧ fetches (dispatch w alerts).2 = [].
Proof.
  destruct alerts as [|alert alerts]; [done|].
  rewrite dispatch_sends by done. cbn zeta.
  destruct (requests_post w _ _) as [err|code text]; [done|].
  by case_bool_decide.
Qed.

(** Splits the POSTs and the fetches of a list of calls that is written as
    the S3 read, the fetches [Hperm] speaks of, and the rest. *)
Ltac sort_calls Hperm Hnofetch :=
  rewrite !posts_app, !fetches_app, (posts_fetched _ _ Hperm),
    (fetches_fetched _ _ Hperm), Hnofetch; simpl;
  by rewrite !app_nil_r.

Lemma run_calls rb w fields feed_list :
  s3_load w S3_BUCKET S3_KEY = Ret (Obj fields) →
  py_iter (feeds_of fields) = Ret feed_list →
  let alerts := scan_alerts rb w feed_list (keywords_of fields) in
  posts (lambda_handler rb w).2 = posts (dispatch w alerts).2 ∧
  fetches (lambda_handler rb w).2 ≡ₚ FeedFetch <$> feed_list.
Proof.
  intros Hload Hiter alerts.
  destruct (lambda_handler_run rb w fields feed_list Hload Hiter)
    as (fetched & Hperm & ->).
  cbn zeta. fold alerts.
  pose proof (posts_dispatch w alerts) as [_ Hnofetch].
  destruct (dispatch w alerts) as [[[]|e] sent]; cbn [snd] in *.
  - change (S3Get S3_BUCKET S3_KEY :: fetched ++ sent ++ [PrintJson _])
      with ([S3Get S3_BUCKET S3_KEY] ++ fetched ++ sent ++ [PrintJson
              (summary_of (length feed_list) alerts)]).
    sort_calls Hperm Hnofetch.
  - change (S3Get S3_BUCKET S3_KEY :: fetched ++ sent)
      with ([S3Get S3_BUCKET S3_KEY] ++ fetched ++ sent).
    sort_calls Hperm Hnofetch.
Qed.

Lemma attachments_length (alerts : list feed_result) :
  length (msg_attachments (build_message alerts)) = total_matches alerts.
Proof.
  unfold total_matches, build_message. cbn [msg_attachments].
  induction alerts as [|alert alerts IH]; [done|].
  rewrite bind_cons, length_app, length_fmap, fmap_cons. simpl. by rewrite IH.
Qed.

Lemma attachments_cover (alerts : list feed_result) alert m :
  alert ∈ alerts → m ∈ r_matches alert →
  attachment_of alert m ∈ msg_attachments (build_message alerts).
Proof.
  intros Halert Hm. unfold build_message. cbn [msg_attachments].
  apply list_elem_of_bind. exists alert. split; [|done].
  by apply list_elem_of_fmap_2.
Qed.

(** *** Order of the results *)

Lemma filter_sublist {A} (f : A → bool) (l : list A) :
  List.filter f l `sublist_of` l.
Proof.
  induction l as [|x l IH]; [done|]. simpl.
  destruct (f x); [by apply sublist_skip | by apply sublist_cons].
Qed.

Lemma scan_results_feeds rb w feed_list keywords :
  r_feed <$> scan_results rb w feed_list keywords = feed_list.
Proof.
  unfold scan_results. rewrite <-list_fmap_compose.
  induction feed_list as [|u l IH]; [done|].
  rewrite fmap_cons, IH. f_equal.
  unfold compose, process_parsed.
  destruct (feedparser_parse w u) as [err|entries]; [done|].
  by destruct (process_entries _ _ _ _).
Qed.

Lemma completed_run rb w fields feed_list resp calls :
  s3_load w S3_BUCKET S3_KEY = Ret (Obj fields) →
  py_iter (feeds_of fields) = Ret feed_list →
  lambda_handler rb w = (Ret resp, calls) →
  resp = {| statusCode := 200;
            body := summary_of (length feed_list)
                      (scan_alerts rb w feed_list (keywords_of fields)) |}.
Proof.
  intros Hload Hiter.
  destruct (lambda_handler_run rb w fields feed_list Hload Hiter)
    as (fetched & _ & ->).
  cbn zeta. destruct (dispatch w _) as [[[]|e] sent]; [|done].
  by intros [= <- _].
Qed.

(** C10. Whatever order the pool completes the feeds in, the list of
    per-feed results is in the order of the configured feeds sequence, and so
    are the alerts subset and the details of the summary. *)
Theorem results_in_submission_order rb w choices feed_list keywords :
  (run_pool choices ((λ feed, process_feed rb w feed keywords) <$> feed_list)).1
    = Ret (scan_results rb w feed_list keywords) ∧
  r_feed <$> scan_results rb w feed_list keywords = feed_list ∧
  r_feed <$> scan_alerts rb w feed_list keywords `sublist_of` feed_list ∧
  ∀ fields resp calls,
    s3_load w S3_BUCKET S3_KEY = Ret (Obj fields) →
    py_iter (feeds_of fields) = Ret feed_list →
    keywords_of fields = keywords →
    lambda_handler rb w = (Ret resp, calls) →
    details (body resp) = scan_alerts rb w feed_list keywords.
Proof.
  split; [|split; [|split]].
  - destruct (run_pool_process_feed rb w choices feed_list keywords)
      as (fetched & _ & ->). done.
  - apply scan_results_feeds.
  - rewrite <-(scan_results_feeds rb w feed_list keywords) at 2.
    apply fmap_sublist, filter_sublist.
  - intros fields resp calls Hload Hiter <- Hrun.
    by rewrite (completed_run _ _ _ _ _ _ Hload Hiter Hrun).
Qed.

Lemma results_in_submission_order_witness :
  details (body {| statusCode := 200;
                   body := summary_of 2
                     (scan_alerts re_unmodelled (scenario (Response 200 "ok") [1; 0])
                        ["A"; "B"] (JList ["Ransomware"])) |})
  = scan_alerts re_unmodelled (scenario (Response 200 "ok") [1; 0])
      ["A"; "B"] (JList ["Ransomware"]).
Proof.
  pose proof (results_in_submission_order re_unmodelled
                (scenario (Response 200 "ok") [1; 0]) [1; 0] ["A"; "B"]
                (JList ["Ransomware"])) as (_ & _ & _ & H).
  eapply (H (list_to_map scenario_fields)); reflexivity.
Defined.

(** *** Idempotence *)

Lemma scan_results_ext rb w1 w2 feed_list keywords :
  (∀ feed, feed ∈ feed_list → feedparser_parse w1 feed = feedparser_parse w2 feed) →
  scan_results rb w1 feed_list keywords = scan_results rb w2 feed_list keywords.
Proof.
  intros Hsame. unfold scan_results.
  apply list_fmap_ext. intros i feed Hfeed.
  rewrite Hsame; [done|]. by eapply list_elem_of_lookup_2.
Qed.

(** C9. Two runs with the same feeds and keyword rules, in which every
    configured feed returns the same content, produce the same results and
    the same alerts (in the same order), whatever the pool's schedule and the
    webhook do; when both invocations complete they return the same
    summary. *)
Theorem scan_idempotent rb w1 w2 fields feed_list :
  s3_load w1 S3_BUCKET S3_KEY = Ret (Obj fields) →
  s3_load w2 S3_BUCKET S3_KEY = Ret (Obj fields) →
  py_iter (feeds_of fields) = Ret feed_list →
  (∀ feed, feed ∈ feed_list → feedparser_parse w1 feed = feedparser_parse w2 feed) →
  (run_pool (pool_choices w1)
     ((λ feed, process_feed rb w1 feed (keywords_of fields)) <$> feed_list)).1
  = (run_pool (pool_choices w2)
       ((λ feed, process_feed rb w2 feed (keywords_of fields)) <$> feed_list)).1 ∧
  scan_alerts rb w1 feed_list (keywords_of fields)
  = scan_alerts rb w2 feed_list (keywords_of fields) ∧
  ∀ resp1 calls1 resp2 calls2,
    lambda_handler rb w1 = (Ret resp1, calls1) →
    lambda_handler rb w2 = (Ret resp2, calls2) →
    resp1 = resp2.
Proof.
  intros Hload1 Hload2 Hiter Hsame.
  pose proof (scan_results_ext rb w1 w2 feed_list (keywords_of fields) Hsame)
    as Hres.
  split; [|split].
  - destruct (run_pool_process_feed rb w1 (pool_choices w1) feed_list
                (keywords_of fields)) as (f1 & _ & ->).
    destruct (run_pool_process_feed rb w2 (pool_choices w2) feed_list
                (keywords_of fields)) as (f2 & _ & ->).
    simpl. by rewrite Hres.
  - unfold scan_alerts. by rewrite Hres.
  - intros resp1 calls1 resp2 calls2 Hrun1 Hrun2.
    rewrite (completed_run _ _ _ _ _ _ Hload1 Hiter Hrun1).
    rewrite (completed_run _ _ _ _ _ _ Hload2 Hiter Hrun2).
    unfold scan_alerts. by rewrite Hres.
Qed.

Lemma scan_idempotent_witness :
  scan_alerts re_unmodelled (scenario (Response 200 "ok") [0; 0])
    ["A"; "B"] (JList ["Ransomware"])
  = scan_alerts re_unmodelled (scenario (Response 503 "down") [1; 0])
      ["A"; "B"] (JList ["Ransomware"]).
Proof.
  pose proof (scan_idempotent re_unmodelled
                (scenario (Response 200 "ok") [0; 0])
                (scenario (Response 503 "down") [1; 0])
                (list_to_map scenario_fields) ["A"; "B"]) as H.
  apply H; reflexivity.
Defined.

(** *** Partial failure *)

Lemma elem_of_filter_bool {A} (f : A → bool) (l : list A) x :
  x ∈ List.filter f l ↔ x ∈ l ∧ f x = true.
Proof. rewrite !list_elem_of_In. apply List.filter_In. Qed.

(** The outcome of a run that reached the dispatch is the outcome of the
    dispatch. *)
Lemma run_outcome rb w fields feed_list :
  s3_load w S3_BUCKET S3_KEY = Ret (Obj fields) →
  py_iter (feeds_of fields) = Ret feed_list →
  let alerts := scan_alerts rb w feed_list (keywords_of fields) in
  (lambda_handler rb w).1 =
    match (dispatch w alerts).1 with
    | Ret _ => Ret {| statusCode := 200;
                      body := summary_of (length feed_list) alerts |}
    | Raise e => Raise e
    end.
Proof.
  intros Hload Hiter alerts.
  destruct (lambda_handler_run rb w fields feed_list Hload Hiter)
    as (fetched & _ & ->).
  cbn zeta. fold alerts. by destruct (dispatch w alerts) as [[[]|e] sent].
Qed.



(** *** Matches and errors of one feed *)

Lemma process_entries_app rb (read rest : list feed_item) keywords matches :
  Forall (turn_returns rb keywords) read →
  process_entries rb (read ++ rest) keywords matches =
    process_entries rb rest keywords (matches ++ entries_matched rb read keywords).
Proof.
  intros Hread. revert matches.
  induction Hread as [|it read [o Ho] _ IH]; intros matches.
  - by rewrite app_nil_r.
  - unfold entries_matched. cbn [app process_entries omap list_omap].
    rewrite Ho. destruct o as [m|].
    + rewrite IH. by rewrite <-app_assoc.
    + apply IH.
Qed.

(** C2, as the code has it. Every result of [process_feed] carries the
    matches appended before the loop stopped, and an error description
    exactly when the fetch or a turn of the loop raised: a fetch that raises
    leaves no matches; a loop that raises keeps the matches of the entries
    read before. The alerts subset takes a result exactly when its matches
    are non-empty, error or not. *)
Theorem alerts_keep_matches_before_error rb w feed_url keywords :
  let r := process_parsed rb feed_url (feedparser_parse w feed_url) keywords in
  process_feed rb w feed_url keywords = (Ret r, [FeedFetch feed_url]) ∧
  r_feed r = feed_url ∧
  (∀ err, feedparser_parse w feed_url = ParseRaises err →
     r_matches r = [] ∧ r_error r = Some (py_str err)) ∧
  (∀ entries, feedparser_parse w feed_url = Parsed entries →
     Forall (turn_returns rb keywords) entries →
     r_matches r = entries_matched rb entries keywords ∧ r_error r = None) ∧
  (∀ read it rest err,
     feedparser_parse w feed_url = Parsed (read ++ it :: rest) →
     Forall (turn_returns rb keywords) read →
     process_entry rb it keywords = Raise err →
     r_matches r = entries_matched rb read keywords ∧
     r_error r = Some (py_str err)) ∧
  (∀ results, r ∈ List.filter has_matches results ↔
              r ∈ results ∧ r_matches r ≠ []).
Proof.
  intros r. split; [apply process_feed_run|]. split.
  { unfold r, process_parsed.
    destruct (feedparser_parse w feed_url); [done|].
    by destruct (process_entries _ _ _ _). }
  split; [|split; [|split]].
  - intros err Herr. unfold r. by rewrite Herr.
  - intros entries Hparsed Hall. unfold r. rewrite Hparsed.
    unfold process_parsed.
    pose proof (process_entries_app rb entries [] keywords [] Hall) as Hrun.
    rewrite app_nil_r in Hrun. by rewrite Hrun.
  - intros read it rest err Hparsed Hread Hraise. unfold r. rewrite Hparsed.
    unfold process_parsed. rewrite process_entries_app by done.
    cbn [process_entries]. by rewrite Hraise.
  - intros results. rewrite elem_of_filter_bool. unfold has_matches.
    destruct (r_matches r) as [|m ms].
    + split; [by intros [_ ?] | by intros [_ ?]].
    + split; [by intros [? _] | by intros [? _]].
Qed.

Lemma alerts_keep_matches_before_error_witness :
  r_matches (process_parsed re_unmodelled "A"
               (feedparser_parse half_read_world "A") (JList ["Ransomware"]))
  = entries_matched re_unmodelled [entry_titled "Ransomware hits hospital"]
      (JList ["Ransomware"]) ∧
  r_error (process_parsed re_unmodelled "A"
             (feedparser_parse half_read_world "A") (JList ["Ransomware"]))
  = Some (py_str (PyExn "AttributeError"
                    "'NoneType' object has no attribute 'get'")).
Proof.
  pose proof (alerts_keep_matches_before_error re_unmodelled half_read_world
                "A" (JList ["Ransomware"])) as (_ & _ & _ & _ & H & _).
  apply (H [entry_titled "Ransomware hits hospital"]
           (Broken (PyExn "AttributeError"
                      "'NoneType' object has no attribute 'get'")) []
           (PyExn "AttributeError" "'NoneType' object has no attribute 'get'")).
  - reflexivity.
  - constructor; [|constructor]. eexists. reflexivity.
  - reflexivity.
Defined.

(** C2 as the specification states it fails: a feed that raised after one of
    its entries matched is error-marked, keeps the match, and is in the
    alerts the dispatch posts and the summary reports. *)
Lemma errored_feed_among_alerts :
  ¬ errored_feeds_excluded re_unmodelled half_read_world ["A"; "B"]
      (JList ["Ransomware"])
  ∧ (process_feed re_unmodelled half_read_world "A" (JList ["Ransomware"])).1
    = Ret half_read_result
  ∧ (lambda_handler re_unmodelled half_read_world).1
    = Ret {| statusCode := 200; body := summary_of 2 [half_read_result] |}
  ∧ posts (lambda_handler re_unmodelled half_read_world).2
    = [HttpPost WEBHOOK_URL json_headers (build_message [half_read_result])].
Proof.
  split; [|repeat split; reflexivity].
  intros Hexcluded.
  apply (Hexcluded half_read_result); [by left | done | by left].
Qed.

(** *** Delivery failures *)

(** C3, as the code has it. When the POST is answered, the invocation
    completes with its status-200 summary whatever the status, and an answer
    other than 200 is printed as an error; when the POST call itself raises,
    the exception leaves [lambda_handler] and no summary is produced. *)
Theorem delivery_failure_logged_or_raised rb w fields feed_list :
  s3_load w S3_BUCKET S3_KEY = Ret (Obj fields) →
  py_iter (feeds_of fields) = Ret feed_list →
  let alerts := scan_alerts rb w feed_list (keywords_of fields) in
  let s := summary_of (length feed_list) alerts in
  alerts ≠ [] →
  (∀ status_code text,
     requests_post w WEBHOOK_URL (build_message alerts)
       = Response status_code text →
     (lambda_handler rb w).1 = Ret {| statusCode := 200; body := s |} ∧
     (status_code ≠ 200%Z →
        PrintLine ("Error sending alert: " +:+ text)
        ∈ (lambda_handler rb w).2) ∧
     PrintJson s ∈ (lambda_handler rb w).2) ∧
  (∀ err,
     requests_post w WEBHOOK_URL (build_message alerts) = PostRaises err →
     (lambda_handler rb w).1 = Raise err ∧
     PrintJson s ∉ (lambda_handler rb w).2).
Proof.
  intros Hload Hiter alerts s Hne.
  destruct (lambda_handler_run rb w fields feed_list Hload Hiter)
    as (fetched & Hperm & ->).
  cbn zeta. fold alerts s. rewrite dispatch_sends by done. cbn zeta.
  split.
  - intros code text ->. cbn [fst snd]. split; [done|]. split.
    + intros Hcode. rewrite bool_decide_true by done.
      right. apply elem_of_app. right. right. by left.
    + right. apply elem_of_app. right.
      apply elem_of_app. right. by left.
  - intros err ->. cbn [fst snd]. split; [done|].
    intros [Heq|Hin]%elem_of_cons; [done|].
    apply elem_of_app in Hin as [Hin|Hin].
    + rewrite Hperm in Hin. by apply list_elem_of_fmap in Hin as (u & ? & _).
    + by apply list_elem_of_singleton in Hin.
Qed.

Lemma delivery_failure_logged_or_raised_witness :
  (lambda_handler re_unmodelled (scenario (Response 503 "down") [])).1
  = Ret {| statusCode := 200;
           body := summary_of 2
                     (scan_alerts re_unmodelled (scenario (Response 503 "down") [])
                        ["A"; "B"] (JList ["Ransomware"])) |}
  ∧ PrintLine "Error sending alert: down"
    ∈ (lambda_handler re_unmodelled (scenario (Response 503 "down") [])).2.
Proof.
  pose proof (delivery_failure_logged_or_raised re_unmodelled
                (scenario (Response 503 "down") [])
                (list_to_map scenario_fields) ["A"; "B"] eq_refl eq_refl) as H.
  cbn zeta in H. destruct H as [H _]; [discriminate|].
  destruct (H 503%Z "down" eq_refl) as (Hret & Hlog & _).
  split; [exact Hret | by apply Hlog].
Defined.

(** C3 as the specification states it fails: with a webhook that cannot be
    reached, the POST raises and [lambda_handler] raises with it. *)
Lemma unreachable_webhook_is_fatal :
  ¬ delivery_failure_absorbed re_unmodelled unreachable_webhook_world
  ∧ (lambda_handler re_unmodelled unreachable_webhook_world).1
    = Raise (PyExn "ConnectionError" "connection refused").
Proof.
  split; [|reflexivity].
  intros Habsorbed.
  destruct (Habsorbed
              (HttpPost WEBHOOK_URL json_headers
                 (build_message
                    (scan_alerts re_unmodelled unreachable_webhook_world
                       ["A"; "B"] (JList ["Ransomware"])))))
    as (resp & Hret & _).
  - do 3 right. by left.
  - exact I.
  - discriminate Hret.
Qed.

(** *** The summary *)

Lemma scenario_alerts rb post choices :
  scan_alerts rb (scenario post choices) ["A"; "B"] (JList ["Ransomware"])
  = [{| r_feed := "A";
        r_matches := [{| m_title := "Ransomware hits hospital";
                         m_url := "";
                         m_keywords := ["Ransomware"] |}];
        r_error := None |}].
Proof. reflexivity. Qed.

(** C7. Every completed invocation returns status 200 and a summary with the
    number of feeds checked (one per fetch), the number of feeds with
    matches and the number of alerts sent; a run without matches reports
    zero feeds with matches and zero alerts, a run whose matches were posted
    and refused reports at least one, so their summaries differ; in the
    two-feed scenario the summary reports 2, 1 and 1. *)
Theorem summary_reports_counts rb :
  (∀ w resp calls,
     lambda_handler rb w = (Ret resp, calls) →
     statusCode resp = 200%Z ∧
     total_feeds_checked (body resp) = length (fetches calls) ∧
     feeds_with_matches (body resp) = length (details (body resp)) ∧
     alerts_sent (body resp) = length (details (body resp)) ∧
     last calls = Some (PrintJson (body resp))) ∧
  (∀ w1 w2 fields1 fields2 feeds1 feeds2 resp1 resp2 calls1 calls2
     status_code text,
     s3_load w1 S3_BUCKET S3_KEY = Ret (Obj fields1) →
     py_iter (feeds_of fields1) = Ret feeds1 →
     s3_load w2 S3_BUCKET S3_KEY = Ret (Obj fields2) →
     py_iter (feeds_of fields2) = Ret feeds2 →
     scan_alerts rb w1 feeds1 (keywords_of fields1) = [] →
     scan_alerts rb w2 feeds2 (keywords_of fields2) ≠ [] →
     requests_post w2 WEBHOOK_URL
       (build_message (scan_alerts rb w2 feeds2 (keywords_of fields2)))
       = Response status_code text →
     status_code ≠ 200%Z →
     lambda_handler rb w1 = (Ret resp1, calls1) →
     lambda_handler rb w2 = (Ret resp2, calls2) →
     feeds_with_matches (body resp1) = 0 ∧
     alerts_sent (body resp1) = 0 ∧
     (0 < feeds_with_matches (body resp2))%nat ∧
     (0 < alerts_sent (body resp2))%nat ∧
     body resp1 ≠ body resp2) ∧
  (∀ choices,
     ∃ s, (lambda_handler rb (scenario (Response 200 "ok") choices)).1
          = Ret {| statusCode := 200; body := s |} ∧
          total_feeds_checked s = 2 ∧
          feeds_with_matches s = 1 ∧
          alerts_sent s = 1 ∧
          length (posts (lambda_handler rb
                           (scenario (Response 200 "ok") choices)).2) = 1).
Proof.
  split; [|split].
  - intros w resp calls Hrun.
    destruct (s3_load w S3_BUCKET S3_KEY) as [[fields|v]|e] eqn:Hload.
    + destruct (py_iter (feeds_of fields)) as [feed_list|e] eqn:Hiter.
      * destruct (run_calls rb w fields feed_list Hload Hiter) as [_ Hfetches].
        rewrite Hrun in Hfetches. cbn [snd] in Hfetches.
        rewrite (completed_run _ _ _ _ _ _ Hload Hiter Hrun).
        cbn [statusCode body summary_of total_feeds_checked feeds_with_matches
               alerts_sent details].
        rewrite Hfetches, length_fmap. repeat split.
        destruct (lambda_handler_run rb w fields feed_list Hload Hiter)
          as (fetched & _ & Heq).
        rewrite Hrun in Heq. cbn zeta in Heq.
        destruct (dispatch w _) as [[[]|e] sent]; [|done].
        injection Heq as _ ->.
        change (S3Get S3_BUCKET S3_KEY :: fetched ++ sent ++ [PrintJson _])
          with ([S3Get S3_BUCKET S3_KEY] ++ fetched ++ sent ++
                [PrintJson (summary_of (length feed_list)
                   (scan_alerts rb w feed_list (keywords_of fields)))]).
        by rewrite !app_assoc, last_snoc.
      * by rewrite (lambda_handler_not_iterable _ _ _ _ Hload Hiter) in Hrun.
    + by rewrite (lambda_handler_not_object _ _ _ Hload) in Hrun.
    + by rewrite (lambda_handler_load_fails _ _ _ Hload) in Hrun.
  - intros w1 w2 fields1 fields2 feeds1 feeds2 resp1 resp2 calls1 calls2
      code text Hload1 Hiter1 Hload2 Hiter2 Hnone Hsome _ _ Hrun1 Hrun2.
    rewrite (completed_run _ _ _ _ _ _ Hload1 Hiter1 Hrun1).
    rewrite (completed_run _ _ _ _ _ _ Hload2 Hiter2 Hrun2).
    rewrite Hnone.
    destruct (scan_alerts rb w2 feeds2 (keywords_of fields2)) as [|r rs];
      [done|].
    cbn. repeat split; try lia. intros Heq. discriminate Heq.
  - intros choices. eexists. split; [|split; [|split; [|split]]].
    + rewrite (run_outcome rb (scenario (Response 200 "ok") choices)
                 (list_to_map scenario_fields) ["A"; "B"] eq_refl eq_refl).
      change (keywords_of (list_to_map scenario_fields))
        with (JList ["Ransomware"]).
      rewrite scenario_alerts. reflexivity.
    + reflexivity.
    + reflexivity.
    + reflexivity.
    + destruct (run_calls rb (scenario (Response 200 "ok") choices)
                  (list_to_map scenario_fields) ["A"; "B"] eq_refl eq_refl)
        as [-> _].
      done.
Qed.

Lemma summary_reports_counts_witness :
  statusCode {| statusCode := 200;
                body := summary_of 2
                  (scan_alerts re_unmodelled (scenario (Response 200 "ok") [])
                     ["A"; "B"] (JList ["Ransomware"])) |} = 200%Z.
Proof.
  pose proof (summary_reports_counts re_unmodelled) as (H & _ & _).
  eapply (H (scenario (Response 200 "ok") [])). reflexivity.
Defined.

(** The summary does not depend on what the webhook answered. *)
Remark summary_blind_to_delivery rb w fields feed_list resp calls :
  s3_load w S3_BUCKET S3_KEY = Ret (Obj fields) →
  py_iter (feeds_of fields) = Ret feed_list →
  lambda_handler rb w = (Ret resp, calls) →
  alerts_sent (body resp)
  = length (scan_alerts rb w feed_list (keywords_of fields)).
Proof.
  intros Hload Hiter Hrun.
  by rewrite (completed_run _ _ _ _ _ _ Hload Hiter Hrun).
Qed.

(** *** Configuration defaults *)

Lemma process_entries_no_keywords rb entries matches :
  (process_entries rb entries (JList []) matches).1 = matches.
Proof.
  revert matches. induction entries as [|[e|err] entries IH]; intros matches;
    [done| |done].
  cbn. apply IH.
Qed.

Lemma scan_alerts_no_keywords rb w feed_list :
  scan_alerts rb w feed_list (JList []) = [].
Proof.
  unfold scan_alerts, scan_results. apply filter_none.
  intros r (feed & -> & _)%list_elem_of_fmap.
  unfold has_matches, process_parsed.
  destruct (feedparser_parse w feed) as [err|entries]; [done|].
  pose proof (process_entries_no_keywords rb entries []) as H.
  destruct (process_entries rb entries (JList []) []) as [matches error].
  cbn in *. by subst.
Qed.

(** C8, as the code has it. A configuration object without [feeds] gives a
    no-op scan: nothing is fetched, nothing is posted and the status-200
    summary counts zero feeds. Without [keywords], every configured feed is
    still fetched; nothing matches, nothing is posted and the status-200
    summary counts the feeds. A [feeds] field that is present is used as it
    is: an array gives its items, a string its characters, and a number, a
    boolean or null makes the invocation raise [TypeError]. *)
Theorem missing_fields_default rb w fields :
  s3_load w S3_BUCKET S3_KEY = Ret (Obj fields) →
  (fields !! "feeds" = None →
     lambda_handler rb w =
       (Ret {| statusCode := 200; body := summary_of 0 [] |},
        [S3Get S3_BUCKET S3_KEY; PrintJson (summary_of 0 [])])) ∧
  (fields !! "keywords" = None →
     ∀ feed_list, py_iter (feeds_of fields) = Ret feed_list →
       (lambda_handler rb w).1 =
         Ret {| statusCode := 200; body := summary_of (length feed_list) [] |} ∧
       posts (lambda_handler rb w).2 = [] ∧
       fetches (lambda_handler rb w).2 ≡ₚ FeedFetch <$> feed_list) ∧
  (∀ v, fields !! "feeds" = Some v →
     match v with
     | JList items =>
         fetches (lambda_handler rb w).2 ≡ₚ FeedFetch <$> items
     | JStr s =>
         fetches (lambda_handler rb w).2
         ≡ₚ FeedFetch <$> ((λ c, String c "") <$> chars s)
     | _ =>
         lambda_handler rb w =
           (Raise (PyExn "TypeError"
                     ("'" +:+ py_type_name v +:+ "' object is not iterable")),
            [S3Get S3_BUCKET S3_KEY])
     end).
Proof.
  intros Hload. split; [|split].
  - intros Hnone.
    assert (Hiter : py_iter (feeds_of fields) = Ret [])
      by (unfold feeds_of; by rewrite Hnone).
    destruct (lambda_handler_run rb w fields [] Hload Hiter)
      as (fetched & Hperm & ->).
    apply Permutation_nil_r in Hperm as ->. done.
  - intros Hnone feed_list Hiter.
    assert (Hkw : keywords_of fields = JList [])
      by (unfold keywords_of; by rewrite Hnone).
    destruct (run_calls rb w fields feed_list Hload Hiter) as [Hposts Hfetches].
    rewrite (run_outcome rb w fields feed_list Hload Hiter), Hposts.
    rewrite Hkw, scan_alerts_no_keywords. done.
  - intros v Hv.
    assert (Hfeeds : feeds_of fields = v) by (unfold feeds_of; by rewrite Hv).
    destruct v as [|b|n|s|items];
      try (by apply (lambda_handler_not_iterable rb w fields); rewrite ?Hfeeds).
    + apply (run_calls rb w fields); [done | by rewrite Hfeeds].
    + apply (run_calls rb w fields); [done | by rewrite Hfeeds].
Qed.

Lemma missing_fields_default_witness :
  (lambda_handler re_unmodelled no_keywords_world).1
  = Ret {| statusCode := 200; body := summary_of 2 [] |}
  ∧ posts (lambda_handler re_unmodelled no_keywords_world).2 = []
  ∧ fetches (lambda_handler re_unmodelled no_keywords_world).2
    ≡ₚ [FeedFetch "A"; FeedFetch "B"].
Proof.
  pose proof (missing_fields_default re_unmodelled no_keywords_world
                (list_to_map [("feeds", JList ["A"; "B"])]) eq_refl)
    as (_ & H & _).
  apply (H eq_refl ["A"; "B"] eq_refl).
Defined.

(** C8 as the specification states it fails: a [feeds] field holding a number
    is not replaced by the empty sequence, the invocation raises; and with
    [keywords] missing the two configured feeds are still fetched. *)
Lemma unusable_fields_not_defaulted :
  ¬ unusable_fields_default re_unmodelled numeric_feeds_world
  ∧ (lambda_handler re_unmodelled numeric_feeds_world).1
    = Raise (PyExn "TypeError" "'int' object is not iterable")
  ∧ ¬ unusable_fields_default re_unmodelled no_keywords_world
  ∧ fetches (lambda_handler re_unmodelled no_keywords_world).2
    = [FeedFetch "A"; FeedFetch "B"].
Proof.
  split; [|split; [reflexivity|split; [|reflexivity]]].
  - intros Hdefault.
    destruct (Hdefault
                (list_to_map [("feeds", JInt 5);
                              ("keywords", JList ["Ransomware"])]) eq_refl)
      as (_ & _ & resp & Hret & _).
    + left. exact I.
    + discriminate Hret.
  - intros Hdefault.
    destruct (Hdefault (list_to_map [("feeds", JList ["A"; "B"])]) eq_refl)
      as (Hfetch & _).
    + right. exact I.
    + discriminate Hfetch.
Qed.

(** *** Keywords with a meaning in a pattern *)

(** The keyword is pasted into the pattern as it is. A parenthesis makes
    [match_keywords] raise, and with it every feed that has an entry, so the
    match of the scenario is lost; a dot matches any character, so ["c.t"]
    is found in a text that does not contain it. The keyword test of
    [function.py] takes both literally. *)
Lemma metacharacters_in_keywords rb :
  match_keywords rb "a cat ran" (JList ["("])
  = Raise (PyExn "re.error"
             "missing ), unterminated subpattern at position 2") ∧
  match_keywords_v1 ["("] "a cat ran" = false ∧
  match_keywords rb "a cat ran" (JList ["c.t"]) = Ret ["c.t"] ∧
  match_keywords_v1 ["c.t"] "a cat ran" = false ∧
  scan_results rb parenthesis_world ["A"; "B"] (JList ["Ransomware"; "("])
  = [{| r_feed := "A"; r_matches := [];
        r_error := Some "missing ), unterminated subpattern at position 2" |};
     {| r_feed := "B"; r_matches := [];
        r_error := Some "missing ), unterminated subpattern at position 2" |}] ∧
  posts (lambda_handler rb parenthesis_world).2 = [].
Proof.
  repeat split; reflexivity.
Qed.

(** *** Literal keywords *)

Lemma chars_app (a b : string) : chars (a +:+ b) = chars a ++ chars b.
Proof.
  induction a as [|c a IH]; [done|].
  change (chars (String c (a +:+ b)) = c :: (chars a ++ chars b)).
  cbn [chars list_ascii_of_string]. f_equal. apply IH.
Qed.

(** A character without a meaning in a pattern is read as itself. *)
Lemma plain_char (c : ascii) :
  Re.is_special c = false →
  Ascii.eqb c "(" = false ∧ Ascii.eqb c ")" = false ∧ Ascii.eqb c "|" = false ∧
  Re.is_repeat_char c = false ∧ Ascii.eqb c "\" = false ∧
  Ascii.eqb c "." = false ∧ Re.is_beyond_char c = false.
Proof.
  destruct c as [[] [] [] [] [] [] [] []]; vm_compute; intros; try discriminate;
    repeat split.
Qed.

Lemma is_word_lower (c : ascii) : Re.is_word (Re.lower c) = Re.is_word c.
Proof. by destruct c as [[] [] [] [] [] [] [] []]. Qed.


Lemma beyond_syntax_plain (k rest : list ascii) :
  Forall (λ c, Re.is_special c = false) k →
  Re.beyond_syntax (k ++ rest) = Re.beyond_syntax rest.
Proof.
  induction 1 as [|c k Hc _ IH]; [done|].
  destruct (plain_char c Hc) as (Hopen & _ & _ & _ & Hesc & _ & Hbeyond).
  cbn [app Re.beyond_syntax]. rewrite Hesc, Hopen, Hbeyond, IH.
  by destruct (k ++ rest).
Qed.

Lemma parse_loop_plain (k rest : list ascii) pos brs its stack :
  Forall (λ c, Re.is_special c = false) k →
  Re.parse_loop (k ++ rest) pos brs its stack
  = Re.parse_loop rest (pos + length k) brs
      (rev (Re.Lit <$> k) ++ its) stack.
Proof.
  intros Hk. revert pos its.
  induction Hk as [|c k Hc _ IH]; intros pos its.
  - by rewrite Nat.add_0_r.
  - destruct (plain_char c Hc)
      as (Hopen & Hclose & Hbar & Hrep & Hesc & Hdot & Hbeyond).
    cbn [app Re.parse_loop].
    rewrite Hopen, Hclose, Hbar, Hrep, Hesc, Hdot, Hbeyond, IH.
    rewrite fmap_cons. cbn [rev length]. rewrite <-app_assoc.
    f_equal. lia.
Qed.

(** The pattern [match_keywords] builds from a literal keyword: a boundary,
    the characters, a boundary. *)
Lemma parse_plain (keyword : string) :
  plain keyword →
  Re.parse ("\b" +:+ keyword +:+ "\b")
  = Re.Compiled
      (Re.Seq Re.WordB
         (Re.mk_seq ((Re.Lit <$> chars keyword) ++ [Re.WordB]))).
Proof.
  intros Hplain. unfold Re.parse. fold (chars ("\b" +:+ keyword +:+ "\b")).
  rewrite !chars_app.
  change (chars "\b") with ["\"; "b"]%char.
  cbn [app]. assert (Hscan :
    Re.beyond_syntax ("\" :: "b" :: chars keyword ++ ["\"; "b"])%char = false).
  { cbn [Re.beyond_syntax]. cbn. by rewrite beyond_syntax_plain. }
  rewrite Hscan. cbn [Re.parse_loop]. cbn.
  rewrite parse_loop_plain by done.
  cbn. unfold Re.close. cbn.
  by rewrite rev_app_distr, rev_involutive.
Qed.

Lemma ends_literals (k : list ascii) (tail : list Re.regex) s i :
  Re.ends (Re.mk_seq ((Re.Lit <$> k) ++ tail)) s i
  = if ci_prefix k (drop i s)
    then Re.ends (Re.mk_seq tail) s (i + length k) else [].
Proof.
  revert i. induction k as [|c k IH]; intros i.
  - cbn. by rewrite Nat.add_0_r.
  - rewrite fmap_cons. cbn [app Re.mk_seq Re.ends].
    destruct (s !! i) as [d|] eqn:Hd.
    + rewrite (drop_S s d i Hd). cbn [ci_prefix].
      destruct (Re.ci_eq c d); [|done].
      rewrite bind_singleton, IH. cbn [andb length].
      by replace (S i + length k) with (i + S (length k)) by lia.
    + rewrite drop_ge by (by apply lookup_ge_None). done.
Qed.

Lemma matches_at_bounded (k s : list ascii) i :
  Re.matches_at
    (Re.Seq Re.WordB (Re.mk_seq ((Re.Lit <$> k) ++ [Re.WordB]))) s i
  = Re.boundary s i && ci_prefix k (drop i s) && Re.boundary s (i + length k).
Proof.
  unfold Re.matches_at. cbn [Re.ends].
  destruct (Re.boundary s i); [|done].
  rewrite bind_singleton, ends_literals.
  destruct (ci_prefix k (drop i s)); [|done].
  cbn. by destruct (Re.boundary s (i + length k)).
Qed.

(** On a literal keyword the search of [match_keywords] is the search for an
    occurrence between two boundaries. *)
Lemma re_search_plain rb (content keyword : string) :
  plain keyword →
  re_search rb ("\b" +:+ keyword +:+ "\b") content
  = Ret (occurs_bounded content keyword).
Proof.
  intros Hplain. unfold re_search. rewrite parse_plain by done.
  f_equal. unfold Re.search, occurs_bounded. fold (chars content).
  generalize (seq 0 (S (length (chars content)))). intros starts.
  induction starts as [|i starts IH]; [done|].
  cbn [existsb]. by rewrite matches_at_bounded, IH.
Qed.

Lemma match_loop_plain rb (content : string) (keywords matches : list string) :
  Forall plain keywords →
  match_loop rb content keywords matches
  = Ret (matches ++ List.filter (occurs_bounded content) keywords).
Proof.
  intros Hplain. revert matches.
  induction Hplain as [|keyword keywords Hk _ IH]; intros matches.
  - cbn. by rewrite app_nil_r.
  - cbn [match_loop List.filter]. rewrite re_search_plain, IH by done.
    destruct (occurs_bounded content keyword); [|done].
    by rewrite <-app_assoc.
Qed.








(** ** Further properties of [function_v2.py] *)

(** *** What [match_keywords] can return *)

Lemma match_loop_sublist rb content (keywords matches l : list string) :
  match_loop rb content keywords matches = Ret l →
  ∃ found, l = matches ++ found ∧ found `sublist_of` keywords.
Proof.
  revert matches. induction keywords as [|k keywords IH]; intros matches.
  - intros [= <-]. exists []. by rewrite app_nil_r.
  - cbn [match_loop].
    destruct (re_search rb _ content) as [[]|e]; [| |done].
    + intros (found & -> & Hsub)%IH. exists (k :: found).
      split; [by rewrite <-app_assoc | by apply sublist_skip].
    + intros (found & -> & Hsub)%IH. exists found.
      split; [done | by apply sublist_cons].
Qed.

(** X2. Whatever the keywords are, with or without a meaning in a pattern,
    a call of [match_keywords] that returns gives a sublist of what iterating
    the keywords yields: only keywords it was given, in the order it was
    given them. *)
Theorem match_keywords_returns_sublist rb content keywords items l :
  py_iter keywords = Ret items →
  match_keywords rb content keywords = Ret l →
  l `sublist_of` items.
Proof.
  intros Hiter. unfold match_keywords. rewrite Hiter.
  intros (found & -> & Hsub)%match_loop_sublist. done.
Qed.

Lemma match_keywords_returns_sublist_witness :
  ["c.t"] `sublist_of` ["dog"; "c.t"; "ran "].
Proof.
  apply (match_keywords_returns_sublist re_unmodelled "a cat ran"
           (JList ["dog"; "c.t"; "ran "]) ["dog"; "c.t"; "ran "] ["c.t"]);
    reflexivity.
Defined.

(** *** What a feed result holds *)

(** Each dictionary the loop appends comes from a turn that returned it, and
    there are no more of them than entries. *)
Lemma process_entries_origin rb entries keywords matches :
  ∃ found,
    (process_entries rb entries keywords matches).1 = matches ++ found ∧
    Forall (λ m, ∃ it, it ∈ entries ∧
                       process_entry rb it keywords = Ret (Some m)) found ∧
    (length found ≤ length entries)%nat.
Proof.
  revert matches. induction entries as [|it entries IH]; intros matches.
  - exists []. by rewrite app_nil_r.
  - cbn [process_entries].
    destruct (process_entry rb it keywords) as [[m|]|e] eqn:Hturn.
    + destruct (IH (matches ++ [m])) as (found & -> & Hall & Hlen).
      exists (m :: found). rewrite <-app_assoc. split; [done|]. split.
      * constructor; [exists it; split; [by left | done]|].
        eapply Forall_impl; [exact Hall|].
        intros m' (it' & Hin & Hm'). exists it'. split; [by right | done].
      * cbn. lia.
    + destruct (IH matches) as (found & -> & Hall & Hlen).
      exists found. split; [done|]. split.
      * eapply Forall_impl; [exact Hall|].
        intros m' (it' & Hin & Hm'). exists it'. split; [by right | done].
      * cbn. lia.
    + exists []. rewrite app_nil_r. split; [done|]. split; [done | cbn; lia].
Qed.

(** X3. Every matched entry of a feed result has at least one keyword, its
    keywords are among the configured ones in their order, and its title and
    link are those of an entry of the feed; a result has no more matched
    entries than the feed has entries. *)
Theorem matched_entries_come_from_entries rb feed_url entries keywords items :
  py_iter keywords = Ret items →
  let r := process_parsed rb feed_url (Parsed entries) keywords in
  (length (r_matches r) ≤ length entries)%nat ∧
  ∀ m, m ∈ r_matches r →
    m_keywords m ≠ [] ∧
    m_keywords m `sublist_of` items ∧
    ∃ e, Item e ∈ entries ∧
         m_title m = default "" (e_title e) ∧
         m_url m = default "" (e_link e) ∧
         match_keywords rb (default "" (e_title e) +:+ " "
                            +:+ default "" (e_summary e)) keywords
         = Ret (m_keywords m).
Proof.
  intros Hiter r.
  destruct (process_entries_origin rb entries keywords [])
    as (found & Hfound & Hall & Hlen).
  assert (Hr : r_matches r = found).
  { unfold r, process_parsed.
    destruct (process_entries rb entries keywords []) as [matches error].
    by cbn in *. }
  rewrite Hr. split; [done|].
  intros m Hm. rewrite Forall_forall in Hall.
  destruct (Hall m Hm) as (it & Hin & Hturn).
  destruct it as [e|err]; [|done]. cbn in Hturn.
  destruct (match_keywords rb _ keywords) as [[|k ks]|err] eqn:Hmatch;
    try done.
  injection Hturn as <-. cbn. split; [done|]. split.
  - by eapply match_keywords_returns_sublist.
  - by exists e.
Qed.

Lemma matched_entries_come_from_entries_witness :
  (length (r_matches (process_parsed re_unmodelled "A" scenario_A
                        (JList ["Ransomware"]))) ≤ 1)%nat.
Proof.
  exact (proj1 (matched_entries_come_from_entries re_unmodelled "A"
                  [entry_titled "Ransomware hits hospital"]
                  (JList ["Ransomware"]) ["Ransomware"] eq_refl)).
Defined.

(** *** Keywords on which every search raises *)

Lemma process_entries_always_raising rb entries keywords matches :
  (∀ content, ∃ e, match_keywords rb content keywords = Raise e) →
  (process_entries rb entries keywords matches).1 = matches ∧
  match entries with
  | [] => (process_entries rb entries keywords matches).2 = None
  | _ => ∃ msg, (process_entries rb entries keywords matches).2 = Some msg
  end.
Proof.
  intros Hraise. destruct entries as [|[e|err] entries]; [done| |].
  - cbn.
    destruct (Hraise (default "" (e_title e) +:+ " "
                      +:+ default "" (e_summary e))) as [err ->].
    split; [done | by eexists].
  - cbn. split; [done | by eexists].
Qed.

(** X4. When the keywords make [match_keywords] raise on every content (a
    [keywords] field that is not iterable, a keyword that is not a pattern),
    every feed that has an entry is marked with an error, no feed has a
    match, a feed without entries is not marked, and a run has no alerts: it
    posts nothing and still returns status 200. *)
Theorem raising_keywords_silence_every_feed rb w keywords :
  (∀ content, ∃ e, match_keywords rb content keywords = Raise e) →
  (∀ feed_url feed,
     r_matches (process_parsed rb feed_url feed keywords) = []) ∧
  (∀ feed_url it entries,
     r_error (process_parsed rb feed_url (Parsed (it :: entries)) keywords)
     ≠ None) ∧
  (∀ feed_url,
     r_error (process_parsed rb feed_url (Parsed []) keywords) = None) ∧
  (∀ feed_list, scan_alerts rb w feed_list keywords = []) ∧
  (∀ fields feed_list,
     s3_load w S3_BUCKET S3_KEY = Ret (Obj fields) →
     py_iter (feeds_of fields) = Ret feed_list →
     keywords_of fields = keywords →
     (lambda_handler rb w).1 =
       Ret {| statusCode := 200; body := summary_of (length feed_list) [] |} ∧
     posts (lambda_handler rb w).2 = []).
Proof.
  intros Hraise.
  assert (Hnone : ∀ feed_url feed,
            r_matches (process_parsed rb feed_url feed keywords) = []).
  { intros feed_url [err|entries]; [done|]. unfold process_parsed.
    pose proof (process_entries_always_raising rb entries keywords [] Hraise)
      as [Hm _].
    by destruct (process_entries rb entries keywords []). }
  assert (Halerts : ∀ feed_list, scan_alerts rb w feed_list keywords = []).
  { intros feed_list. apply filter_none.
    intros r (feed & -> & _)%list_elem_of_fmap.
    unfold has_matches. by rewrite Hnone. }
  split; [done|]. split; [|split; [done|split; [done|]]].
  - intros feed_url it entries. unfold process_parsed.
    pose proof (process_entries_always_raising rb (it :: entries) keywords []
                  Hraise) as [_ [msg Hmsg]].
    destruct (process_entries rb (it :: entries) keywords []).
    cbn in *. by subst.
  - intros fields feed_list Hload Hiter <-.
    destruct (run_calls rb w fields feed_list Hload Hiter) as [Hposts _].
    by rewrite (run_outcome rb w fields feed_list Hload Hiter), Hposts,
      Halerts.
Qed.

Lemma raising_keywords_silence_every_feed_witness :
  scan_alerts re_unmodelled (scenario (Response 200 "ok") []) ["A"; "B"] JNull
  = [].
Proof.
  pose proof (raising_keywords_silence_every_feed re_unmodelled
                (scenario (Response 200 "ok") []) JNull) as H.
  destruct H as (_ & _ & _ & H & _).
  - intros content. eexists. reflexivity.
  - apply H.
Defined.

(** *** Keywords that are not patterns *)

Lemma match_loop_app_plain rb content (good more matches : list string) :
  Forall plain good →
  match_loop rb content (good ++ more) matches
  = match_loop rb content more
      (matches ++ List.filter (occurs_bounded content) good).
Proof.
  intros Hgood. revert matches.
  induction Hgood as [|k good Hk _ IH]; intros matches.
  - cbn. by rewrite app_nil_r.
  - cbn [app match_loop List.filter]. rewrite re_search_plain, IH by done.
    destruct (occurs_bounded content k); [|done].
    by rewrite <-app_assoc.
Qed.

(** X5. A keyword whose pattern does not compile makes [match_keywords]
    raise the compile error on every content, whatever the content holds and
    whatever literal keywords stand before it: what they matched is
    dropped. *)
Theorem malformed_keyword_always_raises rb content good bad rest msg pos :
  Forall plain good →
  Re.parse ("\b" +:+ bad +:+ "\b") = Re.Error msg pos →
  match_keywords rb content (JList (good ++ bad :: rest))
  = Raise (Re.error msg ("\b" +:+ bad +:+ "\b") pos).
Proof.
  intros Hgood Hbad. unfold match_keywords. cbn [py_iter].
  rewrite match_loop_app_plain by done. cbn [match_loop].
  unfold re_search. by rewrite Hbad.
Qed.

Lemma malformed_keyword_always_raises_witness :
  match_keywords re_unmodelled "Ransomware hits hospital"
    (JList (["Ransomware"] ++ ")" :: ["hospital"]))
  = Raise (Re.error "unbalanced parenthesis" ("\b" +:+ ")" +:+ "\b") 2).
Proof.
  apply (malformed_keyword_always_raises re_unmodelled
           "Ransomware hits hospital" ["Ransomware"] ")" ["hospital"]).
  - apply List.Forall_cons; [unfold plain; cbn; repeat constructor|].
    apply List.Forall_nil.
  - reflexivity.
Defined.

(** X6. A keyword that begins with [*], [+] or [?] (and keeps to the
    fragment) never searches anything: on every content [match_keywords]
    raises "nothing to repeat", the repetition having only the leading [\b]
    before it. *)
Theorem leading_repeat_raises rb content (q : ascii) (rest : string) :
  Re.is_repeat_char q = true →
  Re.beyond_syntax (chars ("\b" +:+ String q rest +:+ "\b")) = false →
  match_keywords rb content (JList [String q rest])
  = Raise (Re.error "nothing to repeat"
             ("\b" +:+ String q rest +:+ "\b") 2).
Proof.
  intros Hq Hscan. unfold match_keywords. cbn [py_iter match_loop].
  unfold re_search, Re.parse. fold (chars ("\b" +:+ String q rest +:+ "\b")).
  rewrite Hscan.
  change (chars ("\b" +:+ String q rest +:+ "\b"))
    with ("\"%char :: "b"%char :: q :: chars (rest +:+ "\b")).
  cbn [Re.parse_loop]. 
  change (Ascii.eqb "\" "(") with false. change (Ascii.eqb "\" ")") with false.
  change (Ascii.eqb "\" "|") with false.
  change (Re.is_repeat_char "\") with false.
  change (Ascii.eqb "\" "\") with true. change (Ascii.eqb "b" "b") with true.
  cbn iota.
  assert (Hnot : Ascii.eqb q "(" = false ∧ Ascii.eqb q ")" = false
                 ∧ Ascii.eqb q "|" = false).
  { revert Hq. by destruct q as [[] [] [] [] [] [] [] []]. }
  destruct Hnot as (-> & -> & ->). by rewrite Hq.
Qed.

Lemma leading_repeat_raises_witness :
  match_keywords re_unmodelled "alert level +1" (JList ["+1"])
  = Raise (Re.error "nothing to repeat" ("\b" +:+ "+1" +:+ "\b") 2).
Proof.
  apply (leading_repeat_raises re_unmodelled "alert level +1" "+" "1");
    reflexivity.
Defined.

(** *** Case *)

Lemma lower_idem (c : ascii) : Re.lower (Re.lower c) = Re.lower c.
Proof. by destruct c as [[] [] [] [] [] [] [] []]. Qed.

Lemma is_special_lower (c : ascii) : Re.is_special (Re.lower c) = Re.is_special c.
Proof. by destruct c as [[] [] [] [] [] [] [] []]. Qed.

Lemma chars_py_lower (s : string) : chars (py_lower s) = Re.lower <$> chars s.
Proof. apply list_ascii_of_string_of_list_ascii. Qed.

Lemma boundary_lower (s : list ascii) i :
  Re.boundary (Re.lower <$> s) i = Re.boundary s i.
Proof.
  assert (Hword : ∀ j, Re.word_at (Re.lower <$> s) j = Re.word_at s j).
  { intros j. unfold Re.word_at. rewrite list_lookup_fmap.
    destruct (s !! j); [apply is_word_lower | done]. }
  unfold Re.boundary, Re.word_before. rewrite Hword.
  destruct i; [done | by rewrite Hword].
Qed.

Lemma ci_prefix_lower_r (k t : list ascii) :
  ci_prefix k (Re.lower <$> t) = ci_prefix k t.
Proof.
  revert t. induction k as [|c k IH]; intros [|d t]; try done.
  rewrite fmap_cons. cbn [ci_prefix]. rewrite IH.
  unfold Re.ci_eq. by rewrite lower_idem.
Qed.

Lemma ci_prefix_lower_l (k t : list ascii) :
  ci_prefix (Re.lower <$> k) t = ci_prefix k t.
Proof.
  revert t. induction k as [|c k IH]; intros [|d t]; try done.
  rewrite fmap_cons. cbn [ci_prefix]. rewrite IH.
  unfold Re.ci_eq. by rewrite lower_idem.
Qed.

Lemma occurs_bounded_lower_content (content keyword : string) :
  occurs_bounded (py_lower content) keyword = occurs_bounded content keyword.
Proof.
  unfold occurs_bounded. rewrite chars_py_lower, length_fmap.
  generalize (seq 0 (S (length (chars content)))). intros starts.
  induction starts as [|i starts IH]; [done|].
  cbn [existsb]. by rewrite !boundary_lower, <-fmap_drop, ci_prefix_lower_r, IH.
Qed.

Lemma occurs_bounded_lower_keyword (content keyword : string) :
  occurs_bounded content (py_lower keyword) = occurs_bounded content keyword.
Proof.
  unfold occurs_bounded. rewrite chars_py_lower, length_fmap.
  generalize (seq 0 (S (length (chars content)))). intros starts.
  induction starts as [|i starts IH]; [done|].
  cbn [existsb]. by rewrite ci_prefix_lower_l, IH.
Qed.

Lemma plain_py_lower (keyword : string) : plain keyword → plain (py_lower keyword).
Proof.
  unfold plain. rewrite chars_py_lower. intros Hplain.
  apply Forall_fmap. eapply Forall_impl; [exact Hplain|].
  intros c Hc. unfold compose. by rewrite is_special_lower.
Qed.

(** X7. On an ASCII content and literal ASCII keywords the case of neither
    side matters: the content in lower case gives the same result, and the
    keywords in lower case match exactly where the keywords as written do. *)
Theorem match_keywords_ignores_case rb content (keywords : list string) :
  is_ascii_text content = true →
  forallb is_ascii_text keywords = true →
  Forall plain keywords →
  match_keywords rb (py_lower content) (JList keywords)
  = match_keywords rb content (JList keywords) ∧
  ∃ l, match_keywords rb content (JList keywords) = Ret l ∧
       match_keywords rb content (JList (py_lower <$> keywords))
       = Ret (py_lower <$> l).
Proof.
  intros _ _ Hplain.
  assert (Hrun : ∀ text ks, Forall plain ks →
            match_keywords rb text (JList ks)
            = Ret (List.filter (occurs_bounded text) ks)).
  { intros text ks Hks. unfold match_keywords. cbn [py_iter].
    by rewrite match_loop_plain. }
  split.
  - rewrite !Hrun by done. f_equal.
    clear. induction keywords as [|k ks IH]; [done|].
    cbn [List.filter]. by rewrite occurs_bounded_lower_content, IH.
  - eexists. split; [by apply Hrun|].
    rewrite Hrun.
    + f_equal. clear. induction keywords as [|k ks IH]; [done|].
      rewrite fmap_cons. cbn [List.filter].
      rewrite occurs_bounded_lower_keyword, IH.
      by destruct (occurs_bounded content k).
    + apply Forall_fmap. eapply Forall_impl; [exact Hplain|].
      intros k Hk. by apply plain_py_lower.
Qed.

Lemma match_keywords_ignores_case_witness :
  match_keywords re_unmodelled (py_lower "Major DATA Breach") (JList ["Data Breach"])
  = match_keywords re_unmodelled "Major DATA Breach" (JList ["Data Breach"]).
Proof.
  assert (Hplain : Forall plain ["Data Breach"]).
  { apply List.Forall_cons; [unfold plain; cbn; repeat constructor|].
    apply List.Forall_nil. }
  exact (proj1 (match_keywords_ignores_case re_unmodelled "Major DATA Breach"
                  ["Data Breach"] eq_refl eq_refl Hplain)).
Defined.

(** ** Properties of [function.py] *)

(** *** The keyword test *)

Lemma py_lower_cons (c : ascii) (s : string) :
  py_lower (String c s) = String (Re.lower c) (py_lower s).
Proof. reflexivity. Qed.

Lemma prefix_lower (K T : string) :
  String.prefix (py_lower K) (py_lower T) = ci_prefix (chars K) (chars T).
Proof.
  revert T. induction K as [|c K IH]; intros [|d T]; try done.
  rewrite !py_lower_cons. cbn [String.prefix chars list_ascii_of_string ci_prefix].
  fold (chars K) (chars T). rewrite <-IH. unfold Re.ci_eq.
  destruct (ascii_dec (Re.lower c) (Re.lower d)) as [->|Hne].
  - by rewrite Ascii.eqb_refl.
  - by rewrite (proj2 (Ascii.eqb_neq _ _) Hne).
Qed.

Lemma existsb_seq_S (f : nat → bool) (n : nat) :
  existsb f (seq 0 (S n)) = f 0 || existsb (λ i, f (S i)) (seq 0 n).
Proof.
  cbn [seq existsb]. f_equal. rewrite <-fmap_S_seq.
  generalize (seq 0 n). intros l.
  induction l as [|i l IH]; [done|]. rewrite fmap_cons. cbn [existsb].
  by rewrite IH.
Qed.

(** [keyword.lower() in content.lower()] is the search for the keyword at
    every index of the content, case aside. *)
Lemma py_in_lower (K T : string) :
  py_in (py_lower K) (py_lower T) = occurs_ci T K.
Proof.
  unfold occurs_ci. induction T as [|d T IH].
  - change (py_in (py_lower K) (py_lower ""))
      with (String.prefix (py_lower K) (py_lower "") || false).
    by rewrite prefix_lower.
  - change (py_in (py_lower K) (py_lower (String d T)))
      with (String.prefix (py_lower K) (py_lower (String d T))
            || py_in (py_lower K) (py_lower T)).
    rewrite prefix_lower, IH.
    change (length (chars (String d T))) with (S (length (chars T))).
    by rewrite (existsb_seq_S _ (S (length (chars T)))).
Qed.

(** X8. On ASCII keywords and contents the keyword test of the first version
    holds exactly when one of the keywords stands somewhere in the content,
    case aside: in the middle of a word as well as on its own. An empty
    keyword is found in every content, and without keywords nothing is
    found. *)
Theorem v1_finds_substrings (KEYWORDS : list string) (content : string) :
  forallb is_ascii_text KEYWORDS = true →
  is_ascii_text content = true →
  (match_keywords_v1 KEYWORDS content = true ↔
     ∃ keyword i, keyword ∈ KEYWORDS ∧
                  ci_prefix (chars keyword) (drop i (chars content)) = true) ∧
  (∀ before keyword after,
     is_ascii_text before = true → is_ascii_text after = true →
     keyword ∈ KEYWORDS →
     match_keywords_v1 KEYWORDS (before +:+ keyword +:+ after) = true) ∧
  ("" ∈ KEYWORDS → match_keywords_v1 KEYWORDS content = true) ∧
  match_keywords_v1 [] content = false.
Proof.
  intros _ _.
  assert (Hiff : ∀ text, match_keywords_v1 KEYWORDS text = true ↔
     ∃ keyword i, keyword ∈ KEYWORDS ∧
                  ci_prefix (chars keyword) (drop i (chars text)) = true).
  { intros text. unfold match_keywords_v1. rewrite existsb_exists. split.
    - intros (keyword & Hin%list_elem_of_In & Hocc).
      rewrite py_in_lower in Hocc. unfold occurs_ci in Hocc.
      apply existsb_exists in Hocc as (i & _ & Hi). by exists keyword, i.
    - intros (keyword & i & Hin & Hi). exists keyword.
      split; [by apply list_elem_of_In|].
      rewrite py_in_lower. unfold occurs_ci. apply existsb_exists.
      destruct (decide (i ≤ length (chars text))%nat) as [Hle|Hgt].
      + exists i. split; [|done]. apply list_elem_of_In, elem_of_seq. lia.
      + exists (length (chars text)). split.
        * apply list_elem_of_In, elem_of_seq. lia.
        * rewrite drop_ge in Hi by lia. by rewrite drop_ge by lia. }
  split; [apply Hiff|]. split; [|split; [|done]].
  - intros before keyword after _ _ Hin. apply Hiff.
    exists keyword, (length (chars before)). split; [done|].
    rewrite !chars_app, drop_app_length.
    clear. induction (chars keyword) as [|c k IH]; [done|].
    cbn [app ci_prefix]. rewrite IH. unfold Re.ci_eq.
    by rewrite Ascii.eqb_refl.
  - intros Hin. apply Hiff. by exists "", 0.
Qed.

Lemma v1_finds_substrings_witness :
  match_keywords_v1 V1.KEYWORDS ("Scattered " +:+ "Ransomware" +:+ "s") = true.
Proof.
  pose proof (v1_finds_substrings V1.KEYWORDS "" eq_refl eq_refl)
    as (_ & H & _).
  apply H; [reflexivity | reflexivity |]. do 3 right. by left.
Defined.

(** X9. On an ASCII content and literal ASCII keywords the second version is
    the stricter test: every keyword it returns is one the first version
    finds in the content, so a content with a match in the second version
    passes the test of the first; the other way fails for a keyword inside a
    word. *)
Theorem v2_matches_are_v1_matches rb content (keywords l : list string) :
  is_ascii_text content = true →
  forallb is_ascii_text keywords = true →
  Forall plain keywords →
  match_keywords rb content (JList keywords) = Ret l →
  (∀ keyword, keyword ∈ l →
     py_in (py_lower keyword) (py_lower content) = true) ∧
  (l ≠ [] → match_keywords_v1 keywords content = true) ∧
  match_keywords_v1 ["cat"] "Scattered" = true ∧
  match_keywords rb "Scattered" (JList ["cat"]) = Ret [].
Proof.
  intros _ _ Hplain Hrun.
  assert (Hl : l = List.filter (occurs_bounded content) keywords).
  { unfold match_keywords in Hrun. cbn [py_iter] in Hrun.
    rewrite match_loop_plain in Hrun by done. by injection Hrun as <-. }
  assert (Hin : ∀ keyword, keyword ∈ l →
            keyword ∈ keywords ∧
            py_in (py_lower keyword) (py_lower content) = true).
  { intros keyword. rewrite Hl, elem_of_filter_bool.
    intros [Hk Hocc]. split; [done|]. rewrite py_in_lower.
    unfold occurs_bounded in Hocc. unfold occurs_ci.
    apply existsb_exists in Hocc as (i & Hi & Hocc). apply existsb_exists.
    exists i. split; [done|].
    by apply andb_true_iff in Hocc as [[_ ?]%andb_true_iff _]. }
  split; [intros keyword Hk; by apply Hin|]. split; [|by split].
  intros Hne. destruct l as [|keyword l']; [done|].
  destruct (Hin keyword) as [Hk Hocc]; [by left|].
  unfold match_keywords_v1. apply existsb_exists. exists keyword.
  split; [by apply list_elem_of_In | done].
Qed.

Lemma v2_matches_are_v1_matches_witness :
  match_keywords_v1 ["breach"; "Ransomware"] "Ransomware hits hospital" = true.
Proof.
  assert (Hplain : Forall plain ["breach"; "Ransomware"]).
  { repeat (apply List.Forall_cons; [unfold plain; cbn; repeat constructor|]).
    apply List.Forall_nil. }
  pose proof (v2_matches_are_v1_matches re_unmodelled
                "Ransomware hits hospital" ["breach"; "Ransomware"]
                ["Ransomware"] eq_refl eq_refl Hplain eq_refl) as (_ & H & _).
  by apply H.
Defined.

(** ** Further properties of the second version's delivery and calls *)

(** X11. In a run that gets past the configuration the calls come in this
    order: the S3 read, then one fetch for each configured feed, then what
    the dispatch does, in which nothing is fetched any more: the POST is made
    only after every feed has been fetched. *)
Theorem post_follows_every_fetch rb w fields feed_list :
  s3_load w S3_BUCKET S3_KEY = Ret (Obj fields) →
  py_iter (feeds_of fields) = Ret feed_list →
  ∃ fetched rest,
    (lambda_handler rb w).2 = S3Get S3_BUCKET S3_KEY :: fetched ++ rest ∧
    fetched ≡ₚ FeedFetch <$> feed_list ∧
    posts fetched = [] ∧
    fetches rest = [] ∧
    (length (posts rest) ≤ 1)%nat.
Proof.
  intros Hload Hiter.
  destruct (lambda_handler_run rb w fields feed_list Hload Hiter)
    as (fetched & Hperm & ->).
  cbn zeta. set (alerts := scan_alerts rb w feed_list (keywords_of fields)).
  destruct (posts_dispatch w alerts) as [Hposts Hnofetch].
  exists fetched.
  destruct (dispatch w alerts) as [[[]|e] sent]; cbn [snd] in *.
  - exists (sent ++ [PrintJson (summary_of (length feed_list) alerts)]).
    split; [done|]. split; [done|]. split; [by eapply posts_fetched|].
    rewrite fetches_app, posts_app, Hnofetch, Hposts. split; [done|].
    destruct alerts; cbn; lia.
  - exists sent. split; [done|]. split; [done|].
    split; [by eapply posts_fetched|]. rewrite Hposts. split; [done|].
    destruct alerts; cbn; lia.
Qed.

Lemma post_follows_every_fetch_witness :
  ∃ fetched rest,
    (lambda_handler re_unmodelled (scenario (Response 200 "ok") [1])).2
    = S3Get S3_BUCKET S3_KEY :: fetched ++ rest ∧
    fetched ≡ₚ FeedFetch <$> ["A"; "B"] ∧
    posts fetched = [] ∧
    fetches rest = [] ∧
    (length (posts rest) ≤ 1)%nat.
Proof.
  apply (post_follows_every_fetch re_unmodelled
           (scenario (Response 200 "ok") [1])
           (list_to_map scenario_fields) ["A"; "B"]); reflexivity.
Defined.

Lemma filter_length_le {A} (f : A → bool) (l : list A) :
  (length (List.filter f l) ≤ length l)%nat.
Proof. apply sublist_length, filter_sublist. Qed.

(** X12. The summary of a completed invocation is consistent: the feeds with
    matches are no more than the feeds checked, the alerts sent are the
    feeds with matches, every feed in the details has at least one matched
    entry and is one of the configured feeds, and the matched entries are at
    least as many as the feeds that have them. *)
Theorem summary_is_consistent rb w fields feed_list resp calls :
  s3_load w S3_BUCKET S3_KEY = Ret (Obj fields) →
  py_iter (feeds_of fields) = Ret feed_list →
  lambda_handler rb w = (Ret resp, calls) →
  let s := body resp in
  (feeds_with_matches s ≤ total_feeds_checked s)%nat ∧
  alerts_sent s = feeds_with_matches s ∧
  total_feeds_checked s = length feed_list ∧
  (∀ r, r ∈ details s → r_matches r ≠ [] ∧ r_feed r ∈ feed_list) ∧
  (feeds_with_matches s ≤ total_matches (details s))%nat.
Proof.
  intros Hload Hiter Hrun.
  rewrite (completed_run _ _ _ _ _ _ Hload Hiter Hrun). cbn.
  set (alerts := scan_alerts rb w feed_list (keywords_of fields)).
  assert (Hall : ∀ r, r ∈ alerts → r_matches r ≠ [] ∧ r_feed r ∈ feed_list).
  { intros r [Hr Hm]%elem_of_filter_bool. split.
    - unfold has_matches in Hm. by destruct (r_matches r).
    - rewrite <-(scan_results_feeds rb w feed_list (keywords_of fields)).
      by apply list_elem_of_fmap_2. }
  split; [|split; [done|split; [done|split; [done|]]]].
  - etrans; [apply filter_length_le|]. unfold scan_results.
    by rewrite length_fmap.
  - unfold total_matches. clearbody alerts.
    induction alerts as [|r alerts IH]; [done|].
    rewrite fmap_cons. cbn.
    assert (r_matches r ≠ []) as Hne by (apply Hall; by left).
    assert (length alerts ≤ sum_list (length ∘ r_matches <$> alerts))%nat.
    { apply IH. intros r' Hr'. apply Hall. by right. }
    destruct (r_matches r); [done|]. cbn. lia.
Qed.

Lemma summary_is_consistent_witness :
  (feeds_with_matches
     (body {| statusCode := 200;
              body := summary_of 2
                (scan_alerts re_unmodelled (scenario (Response 200 "ok") [])
                   ["A"; "B"] (JList ["Ransomware"])) |})
   ≤ 2)%nat.
Proof.
  exact (proj1 (summary_is_consistent re_unmodelled
                  (scenario (Response 200 "ok") [])
                  (list_to_map scenario_fields) ["A"; "B"] _ _
                  eq_refl eq_refl eq_refl)).
Defined.

(** *** The loop of the first version *)

Lemma v1_posted_app (l1 l2 : list V1.event) :
  V1.posted (l1 ++ l2) = V1.posted l1 ++ V1.posted l2.
Proof. apply omap_app. Qed.

Lemma v1_fetched_app (l1 l2 : list V1.event) :
  V1.fetched (l1 ++ l2) = V1.fetched l1 ++ V1.fetched l2.
Proof. apply omap_app. Qed.

(** An alert that is answered: one POST, no fetch. *)
Lemma v1_send_alert_answered w title link source :
  (∀ text, ∃ status_code answer,
     V1.requests_post w V1.WEBHOOK_URL text = Response status_code answer) →
  ∃ sent, V1.send_alert w title link source = (Ret (), sent) ∧
          V1.posted sent = [V1.alert_text title link source] ∧
          V1.fetched sent = [].
Proof.
  intros Hanswer. unfold V1.send_alert.
  destruct (Hanswer (V1.alert_text title link source)) as (code & answer & ->).
  eexists. split; [done|]. by case_bool_decide.
Qed.

Lemma v1_entries_alerted w feed_url (entries : list V1.entry) :
  (∀ text, ∃ status_code answer,
     V1.requests_post w V1.WEBHOOK_URL text = Response status_code answer) →
  ∃ calls,
    V1.process_entries w feed_url (V1.Item <$> entries) = (Ret (), calls) ∧
    V1.posted calls = V1.alerts_of feed_url (V1.Item <$> entries) ∧
    V1.fetched calls = [].
Proof.
  intros Hanswer. induction entries as [|e entries (calls & IH & Hp & Hf)].
  - by exists [].
  - rewrite fmap_cons. unfold V1.alerts_of in *.
    cbn [V1.process_entries omap list_omap].
    destruct (V1.match_keywords (V1.content_of e)).
    + destruct (v1_send_alert_answered w (default "" (V1.title e))
                  (default "" (V1.link e)) feed_url Hanswer)
        as (sent & -> & Hsp & Hsf).
      rewrite IH. exists (sent ++ calls).
      split; [done|]. rewrite v1_posted_app, v1_fetched_app, Hsp, Hsf, Hp, Hf.
      done.
    + by exists calls.
Qed.

Lemma v1_feeds_processed w (feeds : list string) :
  Forall (V1.well_formed w) feeds →
  (∀ text, ∃ status_code answer,
     V1.requests_post w V1.WEBHOOK_URL text = Response status_code answer) →
  ∃ calls,
    V1.process_feeds w feeds = (Ret (), calls) ∧
    V1.fetched calls = feeds ∧
    V1.posted calls = feeds ≫= λ feed, V1.alerts_of feed (V1.items_of w feed).
Proof.
  intros Hfeeds Hanswer.
  induction Hfeeds as [|feed feeds [entries Hparsed] _ (calls & IH & Hf & Hp)].
  - by exists [].
  - cbn [V1.process_feeds]. rewrite Hparsed.
    destruct (v1_entries_alerted w feed entries Hanswer)
      as (sent & -> & Hsp & Hsf).
    rewrite IH. exists (V1.Fetch feed :: sent ++ calls). split; [done|].
    rewrite bind_cons. unfold V1.items_of at 1. rewrite Hparsed.
    change (V1.Fetch feed :: sent ++ calls)
      with ([V1.Fetch feed] ++ sent ++ calls).
    rewrite !v1_posted_app, !v1_fetched_app, Hsp, Hsf, Hp, Hf. done.
Qed.

(** X13. When every configured feed parses and the webhook answers, the first
    version fetches the feeds in their order, one after the other, and posts
    one alert for each entry that passes the keyword test, feed by feed and
    entry by entry; it then returns status 200 with its fixed message,
    whatever the webhook answered. *)
Theorem v1_one_alert_per_entry w :
  Forall (V1.well_formed w) V1.RSS_FEEDS →
  (∀ text, ∃ status_code answer,
     V1.requests_post w V1.WEBHOOK_URL text = Response status_code answer) →
  ∃ calls,
    V1.lambda_handler w
    = (Ret {| V1.statusCode := 200;
              V1.body := "RSS Feed Monitoring Completed" |}, calls) ∧
    V1.fetched calls = V1.RSS_FEEDS ∧
    V1.posted calls
    = V1.RSS_FEEDS ≫= λ feed, V1.alerts_of feed (V1.items_of w feed).
Proof.
  intros Hfeeds Hanswer.
  destruct (v1_feeds_processed w V1.RSS_FEEDS Hfeeds Hanswer)
    as (calls & Hrun & Hf & Hp).
  exists calls. unfold V1.lambda_handler. by rewrite Hrun.
Qed.

Lemma v1_one_alert_per_entry_witness :
  ∃ calls,
    V1.lambda_handler (V1.example_world 503)
    = (Ret {| V1.statusCode := 200;
              V1.body := "RSS Feed Monitoring Completed" |}, calls) ∧
    V1.fetched calls = V1.RSS_FEEDS ∧
    V1.posted calls
    = V1.RSS_FEEDS ≫= λ feed,
        V1.alerts_of feed (V1.items_of (V1.example_world 503) feed).
Proof.
  apply v1_one_alert_per_entry.
  - repeat (apply List.Forall_cons; [|]); [| | |apply List.Forall_nil].
    + by exists [{| V1.title := Some "Ransomware hits hospital";
                    V1.description := None;
                    V1.link := Some "https://example.org/1" |}].
    + by exists [].
    + by exists [].
  - intros text. by exists 503%Z, "".
Defined.

(** X14. The first version has no [try]: when a feed cannot be fetched the
    invocation raises that error; the feeds before it were fetched and their
    alerts are already posted, the feeds after it are never fetched. *)
Theorem v1_failed_feed_aborts w before bad after err :
  V1.RSS_FEEDS = before ++ bad :: after →
  Forall (V1.well_formed w) before →
  (∀ text, ∃ status_code answer,
     V1.requests_post w V1.WEBHOOK_URL text = Response status_code answer) →
  V1.feedparser_parse w bad = V1.ParseRaises err →
  ∃ calls,
    V1.lambda_handler w = (Raise err, calls) ∧
    V1.fetched calls = before ++ [bad] ∧
    V1.posted calls
    = before ≫= λ feed, V1.alerts_of feed (V1.items_of w feed).
Proof.
  intros Hfeeds Hbefore Hanswer Hbad.
  unfold V1.lambda_handler. rewrite Hfeeds. clear Hfeeds.
  assert (Hrun : ∃ calls,
    V1.process_feeds w (before ++ bad :: after) = (Raise err, calls) ∧
    V1.fetched calls = before ++ [bad] ∧
    V1.posted calls
    = before ≫= λ feed, V1.alerts_of feed (V1.items_of w feed)).
  { induction Hbefore
      as [|feed feeds [entries Hparsed] _ (calls & IH & Hf & Hp)].
    - cbn [app V1.process_feeds]. rewrite Hbad. by eexists.
    - cbn [app V1.process_feeds]. rewrite Hparsed.
      destruct (v1_entries_alerted w feed entries Hanswer)
        as (sent & -> & Hsp & Hsf).
      rewrite IH. exists (V1.Fetch feed :: sent ++ calls). split; [done|].
      rewrite bind_cons. unfold V1.items_of at 1. rewrite Hparsed.
      change (V1.Fetch feed :: sent ++ calls)
        with ([V1.Fetch feed] ++ sent ++ calls).
      rewrite !v1_posted_app, !v1_fetched_app, Hsp, Hsf, Hp, Hf. done. }
  destruct Hrun as (calls & -> & Hf & Hp). by exists calls.
Qed.

Lemma v1_failed_feed_aborts_witness :
  ∃ calls,
    V1.lambda_handler V1.example_outage
    = (Raise (PyExn "URLError" "timed out"), calls) ∧
    V1.fetched calls
    = ["https://www.securityweek.com/rss.xml"]
      ++ ["https://feeds.feedburner.com/TheHackersNews"] ∧
    V1.posted calls
    = ["https://www.securityweek.com/rss.xml"] ≫= λ feed,
        V1.alerts_of feed (V1.items_of V1.example_outage feed).
Proof.
  apply (v1_failed_feed_aborts V1.example_outage
           ["https://www.securityweek.com/rss.xml"]
           "https://feeds.feedburner.com/TheHackersNews"
           ["https://dailydarkweb.net/feed/"]
           (PyExn "URLError" "timed out")).
  - reflexivity.
  - apply List.Forall_cons; [|apply List.Forall_nil].
    by exists [{| V1.title := Some "Ransomware hits hospital";
                  V1.description := None;
                  V1.link := Some "https://example.org/1" |}].
  - intros text. by exists 200%Z, "".
  - reflexivity.
Defined.

(** ** Keywords as patterns *)





(** ** The monitor on any configuration: the steps of a run *)

Lemma dyn_complete_length {A} (tasks : list (Dyn.io A)) futures i :
  length (Dyn.complete tasks futures i) = length futures.
Proof.
  unfold Dyn.complete. destruct (tasks !! i); [apply length_insert | done].
Qed.

Lemma dyn_futures_lookup {A} (tasks : list (Dyn.io A)) order futures i :
  length futures = length tasks →
  foldl (Dyn.complete tasks) futures order !! i =
    if decide (i ∈ order) then (Some ∘ fst) <$> tasks !! i else futures !! i.
Proof.
  revert futures.
  induction order as [|j order IH]; intros futures Hlen; cbn [foldl].
  - by rewrite decide_False by apply not_elem_of_nil.
  - rewrite IH by (by rewrite dyn_complete_length).
    destruct (decide (i ∈ order)) as [Hin|Hnin];
      [rewrite decide_True; [done | by right]|].
    destruct (decide (i = j)) as [->|Hne].
    + rewrite decide_True by left. unfold Dyn.complete.
      destruct (tasks !! j) as [t|] eqn:Ht; cbn.
      * apply list_lookup_insert_eq. rewrite Hlen. by eapply lookup_lt_Some.
      * apply lookup_ge_None. rewrite Hlen. by apply lookup_ge_None.
    + rewrite decide_False by (intros [?|?]%elem_of_cons; done).
      unfold Dyn.complete. destruct (tasks !! j); [|done].
      by apply list_lookup_insert_ne.
Qed.

Lemma dyn_pool_completes_all {A} (choices : list nat) (tasks : list (Dyn.io A)) :
  foldl (Dyn.complete tasks) (replicate (length tasks) None)
    (completion_order (length tasks) choices (seq 0 (length tasks)))
  = (Some ∘ fst) <$> tasks.
Proof.
  apply list_eq; intros i.
  rewrite dyn_futures_lookup by apply length_replicate.
  case_decide as Hin; [by rewrite list_lookup_fmap|].
  rewrite list_lookup_fmap.
  assert (length tasks ≤ i)%nat as Hge.
  { destruct (decide (i < length tasks)%nat) as [Hlt|]; [|lia].
    exfalso. apply Hin. rewrite completion_order_perm_seq.
    apply elem_of_seq. lia. }
  pose proof (lookup_ge_None_2 tasks i Hge) as Hnone. rewrite Hnone.
  apply lookup_ge_None_2. by rewrite length_replicate.
Qed.

(** Reading the futures in order gives the outcomes up to the first that
    raised. *)
Lemma collect_sequence {A B} (f : B → py_result A) (calls : B → list Dyn.event)
    (l : list B) :
  collect ((Some ∘ fst) <$> ((λ x, (f x, calls x)) <$> l))
  = Dyn.sequence (f <$> l).
Proof.
  induction l as [|x l IH]; [done|]. rewrite !fmap_cons. cbn.
  destruct (f x) as [a|e]; [|done]. cbn in IH. by rewrite IH.
Qed.

Lemma dyn_process_feed_run rb w feed_url keywords :
  Dyn.process_feed rb w feed_url keywords =
    (Dyn.process_parsed rb feed_url (Dyn.feedparser_parse w feed_url) keywords,
     [Dyn.FeedFetch feed_url]).
Proof.
  unfold Dyn.process_feed, Dyn.lift, Dyn.emit, Dyn.io_bind.
  by destruct (Dyn.process_parsed rb feed_url _ keywords).
Qed.

Lemma dyn_run_pool_process_feed rb w choices feed_list keywords :
  ∃ fetched,
    fetched ≡ₚ Dyn.FeedFetch <$> feed_list ∧
    Dyn.run_pool choices
      ((λ feed, Dyn.process_feed rb w feed keywords) <$> feed_list)
    = (Dyn.scan_results rb w feed_list keywords, fetched).
Proof.
  assert (Htasks :
    (λ feed, Dyn.process_feed rb w feed keywords) <$> feed_list
    = (λ feed, (Dyn.process_parsed rb feed (Dyn.feedparser_parse w feed)
                  keywords, [Dyn.FeedFetch feed])) <$> feed_list).
  { apply list_fmap_ext. intros i feed _. apply dyn_process_feed_run. }
  rewrite Htasks. unfold Dyn.run_pool. eexists. split; [|f_equal].
  - rewrite completion_order_perm_seq.
    rewrite (bind_seq_lookup (λ t : Dyn.io Dyn.feed_result, t.2)).
    rewrite list_fmap_bind.
    induction feed_list as [|u l IH]; [done|].
    rewrite bind_cons, fmap_cons. cbn. constructor. apply IH.
    apply list_fmap_ext. intros i feed _. apply dyn_process_feed_run.
  - rewrite dyn_pool_completes_all.
    apply (collect_sequence
             (λ feed, Dyn.process_parsed rb feed (Dyn.feedparser_parse w feed)
                        keywords)
             (λ feed, [Dyn.FeedFetch feed])).
Qed.

Lemma dyn_py_len_iter (v : Dyn.field) (l : list Dyn.pyval) :
  Dyn.py_iter v = Ret l → Dyn.py_len v = Ret (length l).
Proof.
  destruct v as [items|s|keys|t]; cbn; try discriminate.
  - by intros [= <-].
  - intros [= <-]. f_equal. rewrite length_fmap.
    induction s as [|c s IH]; [done|]. cbn. by rewrite IH.
  - intros [= <-]. by rewrite length_fmap.
Qed.

(** A run whose configuration loads as an object with an iterable [feeds]. *)
Lemma dyn_handler_run rb w fields feed_list :
  Dyn.s3_load w S3_BUCKET S3_KEY = Dyn.Loaded (Dyn.Obj fields) →
  Dyn.py_iter (Dyn.feeds_of fields) = Ret feed_list →
  ∃ fetched,
    fetched ≡ₚ Dyn.FeedFetch <$> feed_list ∧
    Dyn.lambda_handler rb w =
      match Dyn.scan_results rb w feed_list (Dyn.keywords_of fields) with
      | Raise e => (Raise e, Dyn.S3Get S3_BUCKET S3_KEY :: fetched)
      | Ret results =>
          let alerts := List.filter Dyn.has_matches results in
          let s := {| Dyn.total_feeds_checked := length feed_list;
                      Dyn.feeds_with_matches := length alerts;
                      Dyn.alerts_sent := length alerts;
                      Dyn.details := alerts |} in
          match Dyn.dispatch w alerts with
          | (Ret _, sent) =>
              (Ret {| Dyn.statusCode := 200; Dyn.body := s |},
               Dyn.S3Get S3_BUCKET S3_KEY :: fetched ++ sent ++ [Dyn.PrintJson s])
          | (Raise e, sent) =>
              (Raise e, Dyn.S3Get S3_BUCKET S3_KEY :: fetched ++ sent)
          end
      end.
Proof.
  intros Hload Hiter.
  destruct (dyn_run_pool_process_feed rb w (Dyn.pool_choices w) feed_list
              (Dyn.keywords_of fields)) as (fetched & Hperm & Hpool).
  exists fetched. split; [done|].
  unfold Dyn.lambda_handler, Dyn.load_config_from_s3. rewrite Hload.
  cbn [Dyn.io_bind Dyn.emit Dyn.io_ret Dyn.lift Dyn.config_get app].
  fold (Dyn.feeds_of fields) (Dyn.keywords_of fields).
  rewrite Hiter. cbn [Dyn.io_bind]. rewrite Hpool.
  destruct (Dyn.scan_results rb w feed_list (Dyn.keywords_of fields))
    as [results|e]; cbn [Dyn.io_bind]; [|done].
  rewrite (dyn_py_len_iter _ _ Hiter).
  destruct (Dyn.dispatch w _) as [[[]|e] sent];
    cbn [Dyn.io_bind Dyn.lift Dyn.emit Dyn.io_ret app];
    by rewrite ?app_nil_r, <-?app_assoc.
Qed.

(** A run that does not get past the configuration makes the S3 read and
    raises. *)
Lemma dyn_handler_stops_early rb w :
  (∀ fields feed_list,
     Dyn.s3_load w S3_BUCKET S3_KEY = Dyn.Loaded (Dyn.Obj fields) →
     Dyn.py_iter (Dyn.feeds_of fields) ≠ Ret feed_list) →
  ∃ e, Dyn.lambda_handler rb w = (Raise e, [Dyn.S3Get S3_BUCKET S3_KEY]).
Proof.
  intros Hnever. unfold Dyn.lambda_handler, Dyn.load_config_from_s3.
  destruct (Dyn.s3_load w S3_BUCKET S3_KEY) as [err|[fields|t]] eqn:Hload.
  - destruct (Dyn.is_exception err); by eexists.
  - cbn [Dyn.io_bind Dyn.emit Dyn.io_ret Dyn.lift Dyn.config_get app].
    fold (Dyn.feeds_of fields).
    destruct (Dyn.py_iter (Dyn.feeds_of fields)) as [feed_list|e] eqn:Hiter.
    + by destruct (Hnever fields feed_list).
    + by eexists.
  - by eexists.
Qed.

(** ** The monitor on any configuration: the payload *)

Lemma py_join_items_checked (sep : string) (items : list Dyn.pyval) :
  if forallb Dyn.is_str items
  then Dyn.py_join_items sep items = Ret (py_join sep (Dyn.py_format <$> items))
  else ∃ msg, Dyn.py_join_items sep items = Raise (PyExn "TypeError" msg).
Proof.
  unfold Dyn.py_join_items. generalize 0.
  induction items as [|[s|t text] items IH]; intros i; [done| |].
  - cbn [forallb Dyn.is_str andb Dyn.first_other]. specialize (IH (S i)).
    destruct (forallb Dyn.is_str items).
    + destruct (Dyn.first_other items (S i)) as [[j t]|]; [discriminate|].
      done.
    + destruct IH as [msg IH].
      destruct (Dyn.first_other items (S i)) as [[j t]|]; [|discriminate].
      by eexists.
  - cbn. by eexists.
Qed.

Lemma attachment_of_checked (alert : Dyn.feed_result) (m : Dyn.matched_entry) :
  if forallb Dyn.is_str (Dyn.m_keywords m)
  then Dyn.attachment_of alert m = Ret (Dyn.attachment_for alert m)
  else ∃ msg, Dyn.attachment_of alert m = Raise (PyExn "TypeError" msg).
Proof.
  unfold Dyn.attachment_of.
  pose proof (py_join_items_checked ", " (Dyn.m_keywords m)) as Hjoin.
  destruct (forallb Dyn.is_str (Dyn.m_keywords m)).
  - by rewrite Hjoin.
  - destruct Hjoin as [msg ->]. by eexists.
Qed.

Lemma sequence_app {A} (l1 l2 : list (py_result A)) :
  Dyn.sequence (l1 ++ l2) =
    match Dyn.sequence l1 with
    | Ret a1 =>
        match Dyn.sequence l2 with
        | Ret a2 => Ret (a1 ++ a2)
        | Raise e => Raise e
        end
    | Raise e => Raise e
    end.
Proof.
  induction l1 as [|[a|e] l1 IH]; cbn [app Dyn.sequence].
  - by destruct (Dyn.sequence l2).
  - rewrite IH. destruct (Dyn.sequence l1); [|done].
    by destruct (Dyn.sequence l2).
  - done.
Qed.

Lemma attachments_of_alert (alert : Dyn.feed_result)
    (matches : list Dyn.matched_entry) :
  if forallb (λ m, forallb Dyn.is_str (Dyn.m_keywords m)) matches
  then Dyn.sequence (Dyn.attachment_of alert <$> matches)
       = Ret (Dyn.attachment_for alert <$> matches)
  else ∃ msg, Dyn.sequence (Dyn.attachment_of alert <$> matches)
              = Raise (PyExn "TypeError" msg).
Proof.
  induction matches as [|m matches IH]; [done|].
  rewrite !fmap_cons. cbn [forallb Dyn.sequence].
  pose proof (attachment_of_checked alert m) as Hm.
  destruct (forallb Dyn.is_str (Dyn.m_keywords m)); cbn [andb].
  - rewrite Hm. destruct (forallb _ matches).
    + by rewrite IH.
    + destruct IH as [msg ->]. by eexists.
  - destruct Hm as [msg ->]. by eexists.
Qed.

(** The message of [send_alert]: with keywords that are strings, one
    attachment for each matched entry, feed by feed; with a keyword that is
    not, a [TypeError] from the [join]. *)
Lemma build_message_checked (alerts : list Dyn.feed_result) :
  if Dyn.str_keywords alerts
  then Dyn.build_message alerts
       = Ret {| msg_text := "🚨 **Threat Intelligence Alert** 🚨" +:+ nl;
                msg_attachments :=
                  alerts ≫= λ alert,
                    Dyn.attachment_for alert <$> Dyn.r_matches alert |}
  else ∃ msg, Dyn.build_message alerts = Raise (PyExn "TypeError" msg).
Proof.
  unfold Dyn.build_message, Dyn.str_keywords.
  assert (Hseq :
    if forallb (λ alert, forallb (λ m, forallb Dyn.is_str (Dyn.m_keywords m))
                           (Dyn.r_matches alert)) alerts
    then Dyn.sequence
           (alerts ≫= λ alert, Dyn.attachment_of alert <$> Dyn.r_matches alert)
         = Ret (alerts ≫= λ alert,
                  Dyn.attachment_for alert <$> Dyn.r_matches alert)
    else ∃ msg, Dyn.sequence
           (alerts ≫= λ alert, Dyn.attachment_of alert <$> Dyn.r_matches alert)
         = Raise (PyExn "TypeError" msg)).
  { induction alerts as [|alert alerts IH]; [done|].
    rewrite !bind_cons, sequence_app. cbn [forallb].
    pose proof (attachments_of_alert alert (Dyn.r_matches alert)) as Ha.
    destruct (forallb _ (Dyn.r_matches alert)); cbn [andb].
    - rewrite Ha. destruct (forallb _ alerts).
      + by rewrite IH.
      + destruct IH as [msg ->]. by eexists.
    - destruct Ha as [msg ->]. by eexists. }
  destruct (forallb _ alerts).
  - by rewrite Hseq.
  - destruct Hseq as [msg ->]. by eexists.
Qed.

Lemma dyn_dispatch_sends w (alerts : list Dyn.feed_result) :
  alerts ≠ [] →
  Dyn.dispatch w alerts =
    match Dyn.build_message alerts with
    | Raise e => (Raise e, [])
    | Ret data =>
        let post := Dyn.HttpPost WEBHOOK_URL json_headers data in
        match Dyn.requests_post w WEBHOOK_URL data with
        | PostRaises err => (Raise err, [post])
        | Response status_code text =>
            (Ret (),
             post :: if bool_decide (status_code ≠ 200%Z)
                     then [Dyn.PrintLine ("Error sending alert: " +:+ text)]
                     else [])
        end
    end.
Proof.
  intros Hne. destruct alerts as [|alert alerts]; [done|].
  unfold Dyn.dispatch, Dyn.send_alert.
  destruct (Dyn.build_message (alert :: alerts)) as [data|e]; [|done].
  cbn [Dyn.io_bind Dyn.lift Dyn.emit].
  destruct (Dyn.requests_post w _ _) as [err|code text]; [done|].
  by case_bool_decide.
Qed.

(** The POSTs of a dispatch. *)
Lemma dyn_posts_dispatch w (alerts : list Dyn.feed_result) :
  Dyn.fetches (Dyn.dispatch w alerts).2 = [] ∧
  Dyn.posts (Dyn.dispatch w alerts).2 =
    match alerts, Dyn.build_message alerts with
    | _ :: _, Ret data => [Dyn.HttpPost WEBHOOK_URL json_headers data]
    | _, _ => []
    end.
Proof.
  destruct alerts as [|alert alerts]; [done|].
  rewrite dyn_dispatch_sends by done.
  destruct (Dyn.build_message (alert :: alerts)) as [data|e]; [|done].
  cbn zeta. destruct (Dyn.requests_post w _ _) as [err|code text]; [done|].
  by case_bool_decide.
Qed.

Lemma dyn_posts_fetched (fetched : list Dyn.event) (feed_list : list Dyn.pyval) :
  fetched ≡ₚ Dyn.FeedFetch <$> feed_list →
  Dyn.posts fetched = [] ∧ Dyn.fetches fetched = fetched.
Proof.
  intros Hperm. split.
  - apply filter_none. intros ev Hev.
    rewrite Hperm in Hev. by apply list_elem_of_fmap in Hev as (u & -> & _).
  - apply filter_all. intros ev Hev.
    rewrite Hperm in Hev. by apply list_elem_of_fmap in Hev as (u & -> & _).
Qed.

(** The POSTs of a run that reached the pool are those of its dispatch. *)
Lemma dyn_run_posts rb w fields feed_list :
  Dyn.s3_load w S3_BUCKET S3_KEY = Dyn.Loaded (Dyn.Obj fields) →
  Dyn.py_iter (Dyn.feeds_of fields) = Ret feed_list →
  Dyn.posts (Dyn.lambda_handler rb w).2 =
    match Dyn.scan_results rb w feed_list (Dyn.keywords_of fields) with
    | Raise _ => []
    | Ret results =>
        Dyn.posts (Dyn.dispatch w (List.filter Dyn.has_matches results)).2
    end.
Proof.
  intros Hload Hiter.
  destruct (dyn_handler_run rb w fields feed_list Hload Hiter)
    as (fetched & Hperm & ->).
  destruct (dyn_posts_fetched _ _ Hperm) as [Hnoposts _].
  destruct (Dyn.scan_results rb w feed_list (Dyn.keywords_of fields))
    as [results|e].
  - cbn zeta.
    destruct (Dyn.dispatch w (List.filter Dyn.has_matches results))
      as [[[]|e] sent]; cbn [snd].
    + change (Dyn.S3Get S3_BUCKET S3_KEY :: fetched ++ sent ++ [Dyn.PrintJson ?s])
        with ([Dyn.S3Get S3_BUCKET S3_KEY] ++ fetched ++ sent
              ++ [Dyn.PrintJson s]).
      unfold Dyn.posts in *. rewrite !List.filter_app, Hnoposts. cbn.
      by rewrite app_nil_r.
    + change (Dyn.S3Get S3_BUCKET S3_KEY :: fetched ++ sent)
        with ([Dyn.S3Get S3_BUCKET S3_KEY] ++ fetched ++ sent).
      unfold Dyn.posts in *. by rewrite !List.filter_app, Hnoposts.
  - cbn [snd].
    change (Dyn.S3Get S3_BUCKET S3_KEY :: fetched)
      with ([Dyn.S3Get S3_BUCKET S3_KEY] ++ fetched).
    unfold Dyn.posts in *. by rewrite List.filter_app, Hnoposts.
Qed.

Lemma dyn_attachments_length (alerts : list Dyn.feed_result)
    (f : Dyn.feed_result → Dyn.matched_entry → attachment) :
  length (alerts ≫= λ alert, f alert <$> Dyn.r_matches alert)
  = Dyn.total_matches alerts.
Proof.
  unfold Dyn.total_matches.
  induction alerts as [|alert alerts IH]; [done|].
  rewrite bind_cons, length_app, length_fmap, fmap_cons. cbn. by rewrite IH.
Qed.

(** C4, as the code has it. A run of [lambda_handler] makes at most one
    POST, whatever the configuration and the feeds. When the run reaches the
    dispatch with the list [alerts] (the results with matches, which is
    also the [details] of the summary of a run that returns): with no alert
    it makes no POST; with alerts whose matched keywords are all strings
    it makes exactly one POST, to the webhook, of one message that has, feed
    by feed and entry by entry in the order of the results, one attachment
    for each matched entry, with the title and the link of the entry, its
    keywords joined by ", " and its feed, so as many attachments as
    there are matched entries; with alerts that have a matched keyword that
    is not a string (a number in the JSON configuration), the [join] raises
    [TypeError], the run raises it and no POST is made. *)
Theorem dispatch_posts_once_for_str_keywords rb (w : Dyn.world) :
  (length (Dyn.posts (Dyn.lambda_handler rb w).2) ≤ 1)%nat ∧
  ∀ fields feed_list results,
    Dyn.s3_load w S3_BUCKET S3_KEY = Dyn.Loaded (Dyn.Obj fields) →
    Dyn.py_iter (Dyn.feeds_of fields) = Ret feed_list →
    Dyn.scan_results rb w feed_list (Dyn.keywords_of fields) = Ret results →
    let alerts := List.filter Dyn.has_matches results in
    let attachments :=
      alerts ≫= λ alert,
        (λ m, {| a_title := Dyn.m_title m;
                 a_title_link := Dyn.m_url m;
                 a_text := "**Matched Keywords**: "
                           +:+ py_join ", " (Dyn.py_format <$> Dyn.m_keywords m)
                           +:+ nl +:+ "**Source**: "
                           +:+ Dyn.py_format (Dyn.r_feed alert) |})
        <$> Dyn.r_matches alert in
    (∀ resp, (Dyn.lambda_handler rb w).1 = Ret resp →
       Dyn.details (Dyn.body resp) = alerts) ∧
    (alerts = [] → Dyn.posts (Dyn.lambda_handler rb w).2 = []) ∧
    (alerts ≠ [] → Dyn.str_keywords alerts = true →
       Dyn.posts (Dyn.lambda_handler rb w).2 =
         [Dyn.HttpPost WEBHOOK_URL [("Content-Type", "application/json")]
            {| msg_text := "🚨 **Threat Intelligence Alert** 🚨" +:+ nl;
               msg_attachments := attachments |}] ∧
       length attachments = Dyn.total_matches alerts) ∧
    (alerts ≠ [] → Dyn.str_keywords alerts = false →
       Dyn.posts (Dyn.lambda_handler rb w).2 = [] ∧
       ∃ msg, (Dyn.lambda_handler rb w).1 = Raise (PyExn "TypeError" msg)).
Proof.
  split.
  - destruct (Dyn.s3_load w S3_BUCKET S3_KEY) as [err|[fields|t]] eqn:Hload.
    + destruct (dyn_handler_stops_early rb w) as [e ->]; [|cbn; lia].
      intros fields feed_list Habs. by rewrite Hload in Habs.
    + destruct (Dyn.py_iter (Dyn.feeds_of fields)) as [feed_list|e] eqn:Hiter.
      * rewrite (dyn_run_posts rb w fields feed_list Hload Hiter).
        destruct (Dyn.scan_results _ _ _ _) as [results|e]; [|cbn; lia].
        destruct (dyn_posts_dispatch w (List.filter Dyn.has_matches results))
          as [_ ->].
        destruct (List.filter Dyn.has_matches results); [cbn; lia|].
        destruct (Dyn.build_message _); cbn; lia.
      * destruct (dyn_handler_stops_early rb w) as [e' ->]; [|cbn; lia].
        intros fields' feed_list Habs.
        rewrite Hload in Habs. injection Habs as <-. by rewrite Hiter.
    + destruct (dyn_handler_stops_early rb w) as [e ->]; [|cbn; lia].
      intros fields feed_list Habs. by rewrite Hload in Habs.
  - intros fields feed_list results Hload Hiter Hscan alerts attachments.
    pose proof (dyn_run_posts rb w fields feed_list Hload Hiter) as Hposts.
    destruct (dyn_handler_run rb w fields feed_list Hload Hiter)
      as (fetched & _ & Hrun).
    rewrite Hscan in Hposts, Hrun. cbn zeta in Hrun. fold alerts in Hposts, Hrun.
    destruct (dyn_posts_dispatch w alerts) as [_ Hsent].
    rewrite Hsent in Hposts. clear Hsent.
    pose proof (build_message_checked alerts) as Hbuild.
    split; [|split; [|split]].
    + intros resp Hresp. rewrite Hrun in Hresp.
      destruct (Dyn.dispatch w alerts) as [[[]|e] sent]; [|done].
      by injection Hresp as <-.
    + intros Hnone. by rewrite Hposts, Hnone.
    + intros Hsome Hstr. rewrite Hstr in Hbuild. split.
      * subst attachments. clearbody alerts.
        destruct alerts as [|alert rest]; [done|]. by rewrite Hposts, Hbuild.
      * apply dyn_attachments_length.
    + intros Hsome Hstr. rewrite Hstr in Hbuild. destruct Hbuild as [msg Hbuild].
      split.
      * subst attachments. clearbody alerts.
        destruct alerts as [|alert rest]; [done|]. by rewrite Hposts, Hbuild.
      * exists msg. rewrite Hrun, dyn_dispatch_sends, Hbuild by done. done.
Qed.

Lemma dispatch_posts_once_for_str_keywords_witness :
  Dyn.posts (Dyn.lambda_handler re_unmodelled Dyn.string_keyword_world).2 =
    [Dyn.HttpPost WEBHOOK_URL [("Content-Type", "application/json")]
       {| msg_text := "🚨 **Threat Intelligence Alert** 🚨" +:+ nl;
          msg_attachments :=
            [{| a_title := "Top 1 threats this week";
                a_title_link := "";
                a_text := "**Matched Keywords**: threats" +:+ nl
                          +:+ "**Source**: A" |}] |}].
Proof.
  pose proof (dispatch_posts_once_for_str_keywords re_unmodelled
                Dyn.string_keyword_world) as [_ H].
  specialize (H (list_to_map Dyn.string_keyword_fields) [Dyn.Str "A"]
                [{| Dyn.r_feed := Dyn.Str "A";
                    Dyn.r_matches :=
                      [{| Dyn.m_title := "Top 1 threats this week";
                          Dyn.m_url := "";
                          Dyn.m_keywords := [Dyn.Str "threats"] |}];
                    Dyn.r_error := None |}]
                eq_refl eq_refl eq_refl).
  destruct H as (_ & _ & H & _).
  apply H; [discriminate | reflexivity].
Defined.

(** C4 as the specification words it is false: with the keyword 1 in the
    configuration and an entry titled "Top 1 threats this week" the run has
    an alert, the [join] of [send_alert] raises [TypeError] and no POST is
    made. *)
Lemma numeric_keyword_posts_nothing :
  ¬ posts_once_per_run re_unmodelled Dyn.numeric_keyword_world
  ∧ (Dyn.lambda_handler re_unmodelled Dyn.numeric_keyword_world).1
    = Raise (PyExn "TypeError"
               "sequence item 0: expected str instance, int found")
  ∧ Dyn.posts (Dyn.lambda_handler re_unmodelled Dyn.numeric_keyword_world).2
    = [].
Proof.
  split; [|split; reflexivity].
  intros Hclaim.
  specialize (Hclaim (list_to_map Dyn.numeric_keyword_fields) [Dyn.Str "A"]
                [{| Dyn.r_feed := Dyn.Str "A";
                    Dyn.r_matches :=
                      [{| Dyn.m_title := "Top 1 threats this week";
                          Dyn.m_url := "";
                          Dyn.m_keywords := [Dyn.Other (Dyn.OScalar Dyn.SInt) "1"] |}];
                    Dyn.r_error := None |}]
                eq_refl eq_refl eq_refl).
  discriminate Hclaim.
Qed.

(** ** The payload, entry by entry *)

Lemma sequence_returns {A B} (f : A → py_result B) (g : A → B) (l : list A) :
  (∀ x, x ∈ l → f x = Ret (g x)) →
  Dyn.sequence (f <$> l) = Ret (g <$> l).
Proof.
  induction l as [|x l IH]; intros Hl; [done|].
  rewrite !fmap_cons. cbn [Dyn.sequence].
  rewrite (Hl x) by left.
  rewrite IH; [done|]. intros y Hy. apply Hl. by right.
Qed.

Lemma dyn_process_entries_items rb (keywords : Dyn.field)
    (found : string → list string) (entries : list entry) :
  (∀ e, e ∈ entries →
     Dyn.match_keywords rb
       (default "" (e_title e) +:+ " " +:+ default "" (e_summary e)) keywords
     = Ret (Dyn.Str <$>
              found (default "" (e_title e) +:+ " " +:+ default "" (e_summary e)))) →
  ∀ matches,
    Dyn.process_entries rb (Dyn.Item <$> entries) keywords matches
    = (matches ++
       omap (λ e,
               match found (default "" (e_title e) +:+ " "
                            +:+ default "" (e_summary e)) with
               | [] => None
               | ks => Some {| Dyn.m_title := default "" (e_title e);
                               Dyn.m_url := default "" (e_link e);
                               Dyn.m_keywords := Dyn.Str <$> ks |}
               end) entries,
       None).
Proof.
  induction entries as [|e entries IH]; intros Hfound matches.
  - cbn. by rewrite app_nil_r.
  - rewrite fmap_cons. cbn [Dyn.process_entries Dyn.process_entry].
    rewrite (Hfound e) by left.
    assert (Hrest : ∀ e', e' ∈ entries →
              Dyn.match_keywords rb
                (default "" (e_title e') +:+ " " +:+ default "" (e_summary e'))
                keywords
              = Ret (Dyn.Str <$>
                       found (default "" (e_title e') +:+ " "
                              +:+ default "" (e_summary e'))))
      by (intros e' He'; apply Hfound; by right).
    cbn [omap list_omap].
    destruct (found _) as [|k ks]; cbn [fmap list_fmap].
    + by apply IH.
    + rewrite (IH Hrest). by rewrite <- app_assoc.
Qed.

Lemma bind_filter_has_matches {B} (results : list Dyn.feed_result)
    (f : Dyn.feed_result → Dyn.matched_entry → B) :
  (List.filter Dyn.has_matches results ≫= λ r, f r <$> Dyn.r_matches r)
  = (results ≫= λ r, f r <$> Dyn.r_matches r).
Proof.
  induction results as [|r results IH]; [done|].
  cbn [List.filter]. rewrite bind_cons. unfold Dyn.has_matches at 1.
  destruct (Dyn.r_matches r) eqn:Hr.
  - by rewrite IH.
  - rewrite bind_cons, IH. by rewrite Hr.
Qed.

Lemma str_keywords_of_strings (results : list Dyn.feed_result) :
  (∀ r m, r ∈ results → m ∈ Dyn.r_matches r →
     ∃ ks, Dyn.m_keywords m = Dyn.Str <$> ks) →
  Dyn.str_keywords results = true.
Proof.
  intros Hstr. unfold Dyn.str_keywords.
  apply forallb_forall. intros r Hr%list_elem_of_In.
  apply forallb_forall. intros m Hm%list_elem_of_In.
  destruct (Hstr r m Hr Hm) as [ks ->].
  apply forallb_forall.
  intros v Hv%list_elem_of_In. by apply list_elem_of_fmap in Hv as (k & -> & _).
Qed.

Lemma py_format_strings (ks : list string) :
  Dyn.py_format <$> (Dyn.Str <$> ks) = ks.
Proof.
  induction ks as [|k ks IH]; [done|]. rewrite !fmap_cons. by rewrite IH.
Qed.

Lemma attachments_of_entries (r : Dyn.feed_result)
    (found : string → list string) (entries : list entry) :
  Dyn.attachment_for r <$>
    omap (λ e,
            match found (default "" (e_title e) +:+ " "
                         +:+ default "" (e_summary e)) with
            | [] => None
            | ks => Some {| Dyn.m_title := default "" (e_title e);
                            Dyn.m_url := default "" (e_link e);
                            Dyn.m_keywords := Dyn.Str <$> ks |}
            end) entries
  = entries ≫= λ e,
      match found (default "" (e_title e) +:+ " "
                   +:+ default "" (e_summary e)) with
      | [] => []
      | ks => [{| a_title := default "" (e_title e);
                  a_title_link := default "" (e_link e);
                  a_text := "**Matched Keywords**: " +:+ py_join ", " ks
                            +:+ nl +:+ "**Source**: "
                            +:+ Dyn.py_format (Dyn.r_feed r) |}]
      end.
Proof.
  induction entries as [|e entries IH]; [done|].
  rewrite bind_cons. cbn [omap list_omap].
  destruct (found _) as [|k ks].
  - exact IH.
  - rewrite fmap_cons, IH. unfold Dyn.attachment_for at 1.
    cbn [Dyn.m_title Dyn.m_url Dyn.m_keywords].
    by rewrite py_format_strings.
Qed.

(** X15. The order and the content of the payload, whatever the order in
    which the pool completes the feeds. For a run whose feeds parse to
    entries on whose title and summary [match_keywords] returns the strings
    [found]: the attachments are those of the entries with a keyword found,
    feed by feed in the order of the configuration and, within a feed, in
    the order of its entries, each with the title and the link of its entry,
    the keywords found joined by ", " and the feed; the run makes one POST
    of them when there is one, and none otherwise. *)
Theorem payload_in_feed_and_entry_order rb (w : Dyn.world)
    (fields : gmap string Dyn.field) (feed_list : list Dyn.pyval)
    (entries : Dyn.pyval → list entry) (found : string → list string) :
  Dyn.s3_load w S3_BUCKET S3_KEY = Dyn.Loaded (Dyn.Obj fields) →
  Dyn.py_iter (Dyn.feeds_of fields) = Ret feed_list →
  (∀ feed, feed ∈ feed_list →
     Dyn.feedparser_parse w feed = Dyn.Parsed (Dyn.Item <$> entries feed)) →
  (∀ feed e, feed ∈ feed_list → e ∈ entries feed →
     Dyn.match_keywords rb
       (default "" (e_title e) +:+ " " +:+ default "" (e_summary e))
       (Dyn.keywords_of fields)
     = Ret (Dyn.Str <$>
              found (default "" (e_title e) +:+ " " +:+ default "" (e_summary e)))) →
  let attachments :=
    feed_list ≫= λ feed,
      entries feed ≫= λ e,
        match found (default "" (e_title e) +:+ " "
                     +:+ default "" (e_summary e)) with
        | [] => []
        | ks => [{| a_title := default "" (e_title e);
                    a_title_link := default "" (e_link e);
                    a_text := "**Matched Keywords**: " +:+ py_join ", " ks
                              +:+ nl +:+ "**Source**: "
                              +:+ Dyn.py_format feed |}]
        end in
  Dyn.posts (Dyn.lambda_handler rb w).2 =
    match attachments with
    | [] => []
    | _ =>
        [Dyn.HttpPost WEBHOOK_URL [("Content-Type", "application/json")]
           {| msg_text := "🚨 **Threat Intelligence Alert** 🚨" +:+ nl;
              msg_attachments := attachments |}]
    end.
Proof.
  intros Hload Hiter Hparse Hfound attachments.
  set (em := λ e : entry,
         match found (default "" (e_title e) +:+ " "
                      +:+ default "" (e_summary e)) with
         | [] => None
         | ks => Some {| Dyn.m_title := default "" (e_title e);
                         Dyn.m_url := default "" (e_link e);
                         Dyn.m_keywords := Dyn.Str <$> ks |}
         end).
  set (g := λ feed, {| Dyn.r_feed := feed;
                       Dyn.r_matches := omap em (entries feed);
                       Dyn.r_error := None |}).
  assert (Hscan : Dyn.scan_results rb w feed_list (Dyn.keywords_of fields)
                  = Ret (g <$> feed_list)).
  { unfold Dyn.scan_results. apply sequence_returns. intros feed Hfeed.
    unfold Dyn.process_parsed. rewrite (Hparse feed Hfeed).
    rewrite (dyn_process_entries_items rb _ found); [done|].
    intros e He. by apply (Hfound feed). }
  rewrite (dyn_run_posts rb w fields feed_list Hload Hiter), Hscan.
  destruct (dyn_posts_dispatch w (List.filter Dyn.has_matches (g <$> feed_list)))
    as [_ ->].
  pose proof (build_message_checked
                (List.filter Dyn.has_matches (g <$> feed_list))) as Hbuild.
  rewrite str_keywords_of_strings in Hbuild.
  2:{ intros r m Hr%list_elem_of_In Hm.
      apply List.filter_In in Hr as [Hr%list_elem_of_In _].
      apply list_elem_of_fmap in Hr as (feed & -> & _).
      cbn [Dyn.r_matches g] in Hm.
      apply list_elem_of_omap in Hm as (e & _ & Hm). unfold em in Hm.
      destruct (found (default "" (e_title e) +:+ " "
                       +:+ default "" (e_summary e))) as [|k ks]; [done|].
      injection Hm as <-. by exists (k :: ks). }
  rewrite bind_filter_has_matches in Hbuild.
  assert (Hsame :
    ((g <$> feed_list) ≫= λ alert,
       Dyn.attachment_for alert <$> Dyn.r_matches alert) = attachments).
  { subst attachments. clear. induction feed_list as [|feed feed_list IH]; [done|].
    rewrite fmap_cons, !bind_cons, IH. f_equal.
    exact (attachments_of_entries (g feed) found (entries feed)). }
  rewrite Hsame in Hbuild.
  destruct (List.filter Dyn.has_matches (g <$> feed_list))
    as [|alert alerts] eqn:Halerts.
  - rewrite <- Hsame, <- (bind_filter_has_matches (g <$> feed_list)), Halerts.
    done.
  - rewrite Hbuild.
    assert (Hin : In alert (List.filter Dyn.has_matches (g <$> feed_list)))
      by (rewrite Halerts; by left).
    apply List.filter_In in Hin as [_ Hhas].
    assert (Hsome : attachments ≠ []).
    { rewrite <- Hsame, <- (bind_filter_has_matches (g <$> feed_list)), Halerts.
      rewrite bind_cons. unfold Dyn.has_matches in Hhas.
      by destruct (Dyn.r_matches alert). }
    by destruct attachments.
Qed.

Lemma payload_in_feed_and_entry_order_witness :
  Dyn.posts (Dyn.lambda_handler re_unmodelled Dyn.string_keyword_world).2 =
    [Dyn.HttpPost WEBHOOK_URL [("Content-Type", "application/json")]
       {| msg_text := "🚨 **Threat Intelligence Alert** 🚨" +:+ nl;
          msg_attachments :=
            [{| a_title := "Top 1 threats this week";
                a_title_link := "";
                a_text := "**Matched Keywords**: threats" +:+ nl
                          +:+ "**Source**: A" |}] |}].
Proof.
  apply (payload_in_feed_and_entry_order re_unmodelled Dyn.string_keyword_world
           (list_to_map Dyn.string_keyword_fields) [Dyn.Str "A"]
           (λ _, [{| e_title := Some "Top 1 threats this week";
                     e_summary := None; e_link := None |}])
           (λ _, ["threats"])).
  - reflexivity.
  - reflexivity.
  - intros feed _. reflexivity.
  - intros feed e _ ->%list_elem_of_singleton. reflexivity.
Defined.

(** ** When a run returns *)

Lemma dyn_process_entries_stopped rb (entries : list Dyn.feed_item)
    (keywords : Dyn.field) (matches : list Dyn.matched_entry) err :
  (Dyn.process_entries rb entries keywords matches).2 = Some err →
  Dyn.is_exception err = true ∨ Dyn.Broken err ∈ entries.
Proof.
  revert matches. induction entries as [|it entries IH]; intros matches; [done|].
  cbn [Dyn.process_entries].
  destruct (Dyn.process_entry rb it keywords) as [[m|]|err'] eqn:Hturn.
  - intros [?|?]%IH; [by left | right; by right].
  - intros [?|?]%IH; [by left | right; by right].
  - cbn [snd]. intros [= ->]. unfold Dyn.process_entry in Hturn.
    destruct it as [e|err'].
    + destruct (Dyn.match_keywords rb _ keywords) as [[|k ks]|e'];
        try discriminate.
      injection Hturn as <-. by left.
    + injection Hturn as ->. right. by left.
Qed.

Lemma sequence_raises {A} (turns : list (py_result A)) e :
  Dyn.sequence turns = Raise e → Raise e ∈ turns.
Proof.
  induction turns as [|[a|e'] turns IH]; [done| |].
  - cbn [Dyn.sequence]. destruct (Dyn.sequence turns); [done|].
    intros [= ->]. right. by apply IH.
  - intros [= ->]. by left.
Qed.

(** X1. When a run of [lambda_handler] returns, and what can make it
    raise. It returns, with status 200, exactly when the configuration loads
    to an object, its feeds can be iterated, no feed raises past
    [process_feed], and either there is no alert, or the matched keywords of
    the alerts are all strings and [requests.post] returns. Past
    [process_feed] goes only what [feedparser] or an entry raises that is not
    an [Exception]: no keywords value and no [Exception] makes a feed
    raise. *)
Theorem handler_returns_exactly_when rb (w : Dyn.world) :
  ((∃ resp, (Dyn.lambda_handler rb w).1 = Ret resp) ↔
   ∃ fields feed_list results,
     Dyn.s3_load w S3_BUCKET S3_KEY = Dyn.Loaded (Dyn.Obj fields) ∧
     Dyn.py_iter (Dyn.feeds_of fields) = Ret feed_list ∧
     Dyn.scan_results rb w feed_list (Dyn.keywords_of fields) = Ret results ∧
     (List.filter Dyn.has_matches results = [] ∨
      ∃ data code text,
        Dyn.str_keywords (List.filter Dyn.has_matches results) = true ∧
        Dyn.build_message (List.filter Dyn.has_matches results) = Ret data ∧
        Dyn.requests_post w WEBHOOK_URL data = Response code text)) ∧
  (∀ resp, (Dyn.lambda_handler rb w).1 = Ret resp → Dyn.statusCode resp = 200%Z) ∧
  (∀ feed_list keywords e,
     Dyn.scan_results rb w feed_list keywords = Raise e →
     ∃ feed err,
       feed ∈ feed_list ∧ Dyn.exn err = e ∧ Dyn.is_exception err = false ∧
       (Dyn.feedparser_parse w feed = Dyn.ParseRaises err ∨
        ∃ entries, Dyn.feedparser_parse w feed = Dyn.Parsed entries ∧
                   Dyn.Broken err ∈ entries)).
Proof.
  assert (Hshape :
    (∃ e, Dyn.lambda_handler rb w = (Raise e, [Dyn.S3Get S3_BUCKET S3_KEY]) ∧
          ∀ fields feed_list,
            Dyn.s3_load w S3_BUCKET S3_KEY = Dyn.Loaded (Dyn.Obj fields) →
            Dyn.py_iter (Dyn.feeds_of fields) ≠ Ret feed_list) ∨
    (∃ fields feed_list,
       Dyn.s3_load w S3_BUCKET S3_KEY = Dyn.Loaded (Dyn.Obj fields) ∧
       Dyn.py_iter (Dyn.feeds_of fields) = Ret feed_list)).
  { destruct (Dyn.s3_load w S3_BUCKET S3_KEY) as [err|[fields|t]] eqn:Hload.
    - left. destruct (dyn_handler_stops_early rb w) as [e He].
      + intros fields feed_list Habs. by rewrite Hload in Habs.
      + exists e. split; [done|]. intros fields feed_list Habs. done.
    - destruct (Dyn.py_iter (Dyn.feeds_of fields)) as [feed_list|e] eqn:Hiter.
      + right. by exists fields, feed_list.
      + left.
        assert (Hnever : ∀ fields' feed_list,
                  Dyn.Loaded (Dyn.Obj fields) = Dyn.Loaded (Dyn.Obj fields') →
                  Dyn.py_iter (Dyn.feeds_of fields') ≠ Ret feed_list).
        { intros fields' feed_list [= <-]. by rewrite Hiter. }
        destruct (dyn_handler_stops_early rb w) as [e' He'].
        * by rewrite Hload.
        * exists e'. split; [done|]. exact Hnever.
    - left. destruct (dyn_handler_stops_early rb w) as [e He].
      + intros fields feed_list Habs. by rewrite Hload in Habs.
      + exists e. split; [done|]. intros fields feed_list Habs. done. }
  split; [|split].
  - destruct Hshape as [(e & Hrun & Hnever)|(fields & feed_list & Hload & Hiter)].
    + split.
      * intros [resp Hresp]. by rewrite Hrun in Hresp.
      * intros (fields & feed_list & results & Hload & Hiter & _).
        by destruct (Hnever fields feed_list Hload).
    + destruct (dyn_handler_run rb w fields feed_list Hload Hiter)
        as (fetched & _ & Hrun).
      pose proof (dyn_dispatch_sends w) as Hsend.
      split.
      * intros [resp Hresp]. exists fields, feed_list.
        rewrite Hrun in Hresp.
        destruct (Dyn.scan_results rb w feed_list (Dyn.keywords_of fields))
          as [results|e]; [|done].
        exists results. do 3 (split; [done|]). cbn zeta in Hresp.
        destruct (List.filter Dyn.has_matches results) as [|alert alerts] eqn:Ha;
          [by left|right].
        specialize (Hsend (alert :: alerts)). rewrite Hsend in Hresp by done.
        pose proof (build_message_checked (alert :: alerts)) as Hbuild.
        destruct (Dyn.str_keywords (alert :: alerts)).
        -- rewrite Hbuild in Hresp |- *. cbn zeta in Hresp.
           destruct (Dyn.requests_post w WEBHOOK_URL _) as [err|code text] eqn:Hpost;
             [done|].
           eexists _, code, text. by rewrite Hpost.
        -- destruct Hbuild as [msg Hbuild]. by rewrite Hbuild in Hresp.
      * intros (fields' & feed_list' & results & Hload' & Hiter' & Hscan & Hsent).
        rewrite Hload in Hload'. injection Hload' as <-.
        rewrite Hiter in Hiter'. injection Hiter' as <-.
        rewrite Hrun, Hscan. cbn zeta.
        destruct Hsent as [->|(data & code & text & _ & Hbuild & Hpost)].
        -- by eexists.
        -- destruct (List.filter Dyn.has_matches results) as [|alert alerts];
             [by eexists|].
           rewrite Hsend, Hbuild by done. cbn zeta. rewrite Hpost.
           by eexists.
  - intros resp Hresp.
    destruct Hshape as [(e & Hrun & _)|(fields & feed_list & Hload & Hiter)].
    + by rewrite Hrun in Hresp.
    + destruct (dyn_handler_run rb w fields feed_list Hload Hiter)
        as (fetched & _ & Hrun).
      rewrite Hrun in Hresp.
      destruct (Dyn.scan_results rb w feed_list (Dyn.keywords_of fields))
        as [results|e]; [|done].
      cbn zeta in Hresp.
      destruct (Dyn.dispatch w _) as [[[]|e] sent]; [|done].
      by injection Hresp as <-.
  - intros feed_list keywords e Hscan.
    apply sequence_raises, list_elem_of_fmap in Hscan as (feed & Hfeed & Hin).
    exists feed. unfold Dyn.process_parsed in Hfeed.
    destruct (Dyn.feedparser_parse w feed) as [err|entries] eqn:Hparse.
    + destruct (Dyn.is_exception err) eqn:Hexc; [done|].
      injection Hfeed as ->. exists err. repeat split; try done. by left.
    + destruct (Dyn.process_entries rb entries keywords [])
        as [matches [err|]] eqn:Hloop; [|done].
      destruct (Dyn.is_exception err) eqn:Hexc; [done|].
      injection Hfeed as ->. exists err. repeat split; try done.
      right. exists entries. split; [done|].
      destruct (dyn_process_entries_stopped rb entries keywords [] err) as [?|?];
        [by rewrite Hloop|congruence|done].
Qed.

Lemma handler_returns_exactly_when_witness :
  ∃ resp,
    (Dyn.lambda_handler re_unmodelled Dyn.string_keyword_world).1 = Ret resp.
Proof.
  apply (proj2 (proj1 (handler_returns_exactly_when re_unmodelled
                         Dyn.string_keyword_world))).
  exists (list_to_map Dyn.string_keyword_fields), [Dyn.Str "A"],
    [{| Dyn.r_feed := Dyn.Str "A";
        Dyn.r_matches :=
          [{| Dyn.m_title := "Top 1 threats this week";
              Dyn.m_url := "";
              Dyn.m_keywords := [Dyn.Str "threats"] |}];
        Dyn.r_error := None |}].
  split; [reflexivity|]. split; [reflexivity|]. split; [reflexivity|].
  right. eexists _, 200%Z, "ok".
  split; [reflexivity|]. split; reflexivity.
Defined.
